(** * The HZK glyph-atlas codec of [src/hzk/hzk_gui.py]

    A shallow embedding of [bits_to_byte_array], [encode_hzk_file] and
    [decode_hzk_file], and the properties of the codec checked against it.

    Python integers are [Z]; a Python list that the code mutates in place is
    modelled by returning its final contents next to the return value; the
    output file is the state of a small state-and-exception monad, so that
    the bytes already written survive an exception just as they do on disk.
    Console output ([print]) is not part of the model. *)

From Stdlib Require Import ZArith List String Ascii Bool Lia.
From Stdlib Require Import Strings.Byte.
From Stdlib Require Import DecimalString.
From Stdlib Require Lists.Finite.
Import ListNotations.
Local Open Scope string_scope.
Local Open Scope list_scope.
Local Open Scope Z_scope.

(** ** Exceptions *)

Inductive exn : Type :=
| FileNotFoundError (filename : string)
| AssertionError (msg : string)
| ValueError (msg : string)
| IndexError (msg : string)
| OverflowError (msg : string).

(** ** Python built-ins used by the codec *)

Module Py.

(** [range(lo, hi)] *)
Definition range (lo hi : Z) : list Z :=
  map (fun k => lo + Z.of_nat k) (seq 0 (Z.to_nat (hi - lo))).

(** [enumerate(xs)] *)
Definition enumerate {A : Type} (xs : list A) : list (Z * A) :=
  combine (map Z.of_nat (seq 0 (List.length xs))) xs.

(** [sum(xs)] on integers *)
Definition sum (xs : list Z) : Z := fold_left Z.add xs 0.

(** [str(n)] on an integer *)
Definition str (n : Z) : string := NilZero.string_of_int (Z.to_int n).

(** [f'{n:02}']: decimal, zero-filled on the left to two characters *)
Definition fmt_02 (n : Z) : string :=
  let s := str n in
  if (String.length s <? 2)%nat then String "0"%char s else s.

(** [sys.maxsize] of a 64-bit interpreter, 2^63 - 1 *)
Definition maxsize : Z := 9223372036854775807.

(** [bytearray(n)] on an integer [n]: [n] zero bytes; a negative count is
    a [ValueError], and a count above [sys.maxsize] is an
    [OverflowError]. *)
Definition bytearray (n : Z) : exn + list byte :=
  if n <? 0 then inl (ValueError "negative count")
  else if maxsize <? n
  then inl (OverflowError "cannot fit 'int' into an index-sized integer")
  else inr (repeat x00 (Z.to_nat n)).

End Py.

(** ** [bits_to_byte_array] (lines 94-105)

    The argument is the caller's list object.  The function appends to it in
    place, so the model returns the contents of that list after the call
    together with the value returned (or the exception raised). *)

Definition bits_to_byte_array (bit_array : list Z) : list Z * (exn + list byte) :=
  let remainder := Z.of_nat (List.length bit_array) mod 8 in
  let bit_array :=
    if negb (remainder =? 0)
    then fold_left (fun l _ => l ++ [0]) (Py.range 0 (8 - remainder)) bit_array
    else bit_array in
  (bit_array,
   Py.bytearray
     (Py.sum (map (fun '(i, v) => Z.shiftl v i) (Py.enumerate (rev bit_array))))).

(** The list is a list of bits when every element is the integer 0 or 1. *)
Definition is_bit (v : Z) : Prop := v = 0 \/ v = 1.

(** ** The bit-packing contract, in the words of the specification

    Pad with trailing 0 bits to a multiple of 8, then pack each group of 8
    bits into one byte, first bit of the group most significant. *)

Module PackSpec.

Definition pad8 (bits : list Z) : list Z :=
  bits ++ repeat 0 (Z.to_nat ((8 - Z.of_nat (List.length bits) mod 8) mod 8)).

Definition byte_of_group (b7 b6 b5 b4 b3 b2 b1 b0 : Z) : byte :=
  match Byte.of_N (Z.to_N (128 * b7 + 64 * b6 + 32 * b5 + 16 * b4
                           + 8 * b3 + 4 * b2 + 2 * b1 + b0)) with
  | Some b => b
  | None => x00
  end.

Fixpoint pack_groups (bits : list Z) : list byte :=
  match bits with
  | b7 :: b6 :: b5 :: b4 :: b3 :: b2 :: b1 :: b0 :: rest =>
      byte_of_group b7 b6 b5 b4 b3 b2 b1 b0 :: pack_groups rest
  | _ => []
  end.

Definition pack_bits (bits : list Z) : list byte := pack_groups (pad8 bits).

(** ceil(n / 8) *)
Definition ceil_div8 (n : Z) : Z := (n + 7) / 8.

End PackSpec.

(** ** Atlas images and the input directory

    An opened image has a width, a height and, after [img.load()], a pixel
    access object indexed by [(x, y)].  The encoder unpacks every pixel into
    four bands [_r, _g, _b, _a].  An [image] is therefore an image that
    Pillow opens with four bands per pixel (mode RGBA); an atlas stored with
    fewer bands fails at that unpacking and is not an [image]. *)

Definition rgba : Type := (Z * Z * Z * Z)%type.

Record image : Type := mk_image {
  img_width : Z;
  img_height : Z;
  img_load : Z -> Z -> rgba
}.

(** [pixel_array[x, y]]: a negative index counts from the far edge, and an
    index outside the image is an [IndexError]. *)
Definition pixel_access (img : image) (x y : Z) : exn + rgba :=
  let x := if x <? 0 then img_width img + x else x in
  let y := if y <? 0 then img_height img + y else y in
  if (x <? 0) || (img_width img <=? x) || (y <? 0) || (img_height img <=? y)
  then inl (IndexError "image index out of range")
  else inr (img_load img x y).

(** The files of the input directory, by path; [None] when [open] finds no
    such file.  A file that is there is one that opens as an [image]. *)
Definition directory : Type := string -> option image.

(** ** The output file and the monad of the encoder

    The state is what has been written to [output_hzk_file] so far. *)

Definition outfile : Type := list byte.

Definition M (A : Type) : Type := outfile -> outfile * (exn + A).

Definition ret {A : Type} (a : A) : M A := fun out => (out, inr a).

Definition raise {A : Type} (e : exn) : M A := fun out => (out, inl e).

Definition bind {A B : Type} (m : M A) (k : A -> M B) : M B :=
  fun out =>
    match m out with
    | (out', inl e) => (out', inl e)
    | (out', inr a) => k a out'
    end.

(** [output_hzk_file.write(bs)] *)
Definition write (bs : list byte) : M unit := fun out => (out ++ bs, inr tt).

(** Lifting of a computation that can only raise. *)
Definition lift {A : Type} (r : exn + A) : M A :=
  match r with
  | inl e => raise e
  | inr a => ret a
  end.

Notation "x <- m ;; k" := (bind m (fun x => k))
  (at level 61, m at next level, right associativity).
Notation "m ;;; k" := (bind m (fun _ => k))
  (at level 61, right associativity).

(** A [for] loop whose body is run for its effects. *)
Fixpoint for_each {A : Type} (xs : list A) (body : A -> M unit) : M unit :=
  match xs with
  | [] => ret tt
  | x :: xs' => body x ;;; for_each xs' body
  end.

(** ** [encode_hzk_file] (lines 13-75) *)

Definition PIXEL_WIDTHS : list Z := [6; 8; 10; 12; 14; 16; 20; 24; 28; 32].

(** Line 30: the path of the atlas of level [i]. *)
Definition img_name_of (input_image_dir : string) (i width height : Z) : string :=
  (input_image_dir ++ "/0x" ++ Py.fmt_02 i ++ "_" ++ Py.str width ++ "x"
     ++ Py.str height ++ "_0-127.png")%string.

(** Lines 45-47: the exception raised on a dimension mismatch. *)
Definition bad_dimensions (img_name : string) (img : image) : exn :=
  AssertionError
    ("Bad Dimensions: " ++ img_name ++ " (" ++ Py.str (img_width img) ++ "x"
       ++ Py.str (img_height img) ++ ")")%string.

(** Lines 36-47: both assertions, and the handler that re-raises. *)
Definition check_dimensions (img_name : string) (img : image)
    (image_width image_height : Z) : exn + unit :=
  if (img_height img =? image_height) && (img_width img =? image_width)
  then inr tt
  else inl (bad_dimensions img_name img).

(** Lines 69-72: the exception raised on a colour that is neither black nor
    white. *)
Definition invalid_image (img_name : string) (_r _g _b : Z) : exn :=
  ValueError
    ("Invalid image: '" ++ img_name ++ "' - image contains RGB value: "
       ++ Py.str _r ++ ", " ++ Py.str _g ++ ", " ++ Py.str _b)%string.

(** Lines 58-72: the body of the [w] loop, acting on [bit_array]. *)
Definition sample_pixel (img_name : string) (img : image)
    (width height row col h w : Z) (bit_array : list Z) : exn + list Z :=
  match pixel_access img (col * (width + 1) + w) (row * (height + 1) + h) with
  | inl e => inl e
  | inr (_r, _g, _b, _a) =>
      if (_r =? 0) && (_g =? 0) && (_b =? 0) then inr (bit_array ++ [1])
      else if (_r =? 255) && (_g =? 255) && (_b =? 255) then inr (bit_array ++ [0])
      else inl (invalid_image img_name _r _g _b)
  end.

(** Lines 57-72: the [w] loop over the columns [ws], threading [bit_array]. *)
Fixpoint sample_row (img_name : string) (img : image)
    (width height row col h : Z) (ws : list Z) (bit_array : list Z)
    : exn + list Z :=
  match ws with
  | [] => inr bit_array
  | w :: ws' =>
      match sample_pixel img_name img width height row col h w bit_array with
      | inl e => inl e
      | inr bit_array' =>
          sample_row img_name img width height row col h ws' bit_array'
      end
  end.

(** Lines 54-73: the body of the [h] loop. *)
Definition encode_row (img_name : string) (img : image)
    (width height row col h : Z) : M unit :=
  bit_array <- lift (sample_row img_name img width height row col h
                       (Py.range 1 width) []) ;;
  bs <- lift (snd (bits_to_byte_array bit_array)) ;;
  write bs.

(** Lines 53-73: all pixel rows of one glyph. *)
Definition encode_glyph (img_name : string) (img : image)
    (width height row col : Z) : M unit :=
  for_each (Py.range 1 height) (encode_row img_name img width height row col).

(** Lines 50-73: the body of the [col] loop, with the [continue] of the
    reserved slot. *)
Definition encode_slot (img_name : string) (img : image)
    (i width height row col : Z) : M unit :=
  if (i =? 9) && (row =? 7) && (col =? 15) then ret tt
  else encode_glyph img_name img width height row col.

(** Lines 48-73: the grid of one atlas. *)
Definition encode_grid (img_name : string) (img : image)
    (i width height : Z) : M unit :=
  for_each (Py.range 0 8) (fun row =>
    for_each (Py.range 0 16) (fun col =>
      encode_slot img_name img i width height row col)).

(** Lines 27-74: the body of the loop over the levels. *)
Definition encode_level (dir : directory) (input_image_dir : string)
    (level : Z * Z) : M unit :=
  let '(i, width) := level in
  let height := width * 2 in
  let image_width := ((width + 1) * 16) + 1 in
  let image_height := ((height + 1) * 8) + 1 in
  let img_name := img_name_of input_image_dir i width height in
  match dir img_name with
  | None => raise (FileNotFoundError img_name)
  | Some img =>
      lift (check_dimensions img_name img image_width image_height) ;;;
      encode_grid img_name img i width height
  end.

(** The loop over a list of levels. *)
Definition encode_levels (dir : directory) (input_image_dir : string)
    (levels : list (Z * Z)) : M unit :=
  for_each levels (encode_level dir input_image_dir).

(** [encode_hzk_file]: the output file is opened for writing, hence empty,
    and the result is its final contents with the outcome of the run. *)
Definition encode_hzk_file (dir : directory) (input_image_dir : string)
    : outfile * (exn + unit) :=
  encode_levels dir input_image_dir (Py.enumerate PIXEL_WIDTHS) [].

(** ** [decode_hzk_file] (lines 79-91)

    [files] gives the contents of a binary file by path; the images the
    decoder writes would be added to [output_dir].  The body of the loop
    returns in its first iteration. *)

Definition decode_hzk_file (files : string -> option (list byte))
    (input_hzk_filename : string) (output_dir : directory)
    : directory * (exn + unit) :=
  match files input_hzk_filename with
  | None => (output_dir, inl (FileNotFoundError input_hzk_filename))
  | Some input_hzk_file =>
      match Py.enumerate PIXEL_WIDTHS with
      | [] => (output_dir, inr tt)
      | (i, width) :: _ =>
          let height := width * 2 in
          (output_dir, inr tt)
      end
  end.

(** ** Example atlases *)

Definition black : rgba := (0, 0, 0, 255).
Definition white : rgba := (255, 255, 255, 255).

(** An atlas of the right size for pixel width [width], painted by [paint]. *)
Definition atlas (width : Z) (paint : Z -> Z -> rgba) : image :=
  mk_image ((width + 1) * 16 + 1) ((width * 2 + 1) * 8 + 1) paint.

(** A directory holding, for every level, an atlas painted by [paint i]. *)
Definition atlas_dir (input_image_dir : string) (paint : Z -> Z -> Z -> rgba)
    : directory :=
  fun name =>
    match find (fun '(i, width) =>
                  String.eqb name (img_name_of input_image_dir i width (width * 2)))
               (Py.enumerate PIXEL_WIDTHS) with
    | Some (i, width) => Some (atlas width (paint i))
    | None => None
    end.

Definition white_dir : directory := atlas_dir "in" (fun _ _ _ => white).

(** All-white atlases, except that the atlas of level 1 is one pixel too
    narrow. *)
Definition narrow_dir : directory :=
  fun name =>
    if String.eqb name "in/0x01_8x16_0-127.png"
    then Some (mk_image 144 137 (fun _ _ => white))
    else white_dir name.

(** All-white atlases, except for one red pixel in the first glyph of
    level 0. *)
Definition red_dot_dir : directory :=
  atlas_dir "in" (fun i x y =>
    if (i =? 0) && (x =? 1) && (y =? 1) then (255, 0, 0, 255) else white).

(** All-white atlases, except that the drawable block of the reserved slot
    of level 9 is painted grey. *)
Definition grey_hole_dir : directory :=
  atlas_dir "in" (fun i x y =>
    if (i =? 9) && (496 <=? x) && (x <? 527) && (456 <=? y) && (y <? 519)
    then (128, 128, 128, 255) else white).

(** All-white atlases, except for one black pixel in the first glyph of
    level 0: the last pixel of its first row ([dot_a_dir]) or of its second
    row ([dot_b_dir]). *)
Definition dot_a_dir : directory :=
  atlas_dir "in" (fun i x y =>
    if (i =? 0) && (x =? 5) && (y =? 1) then black else white).

Definition dot_b_dir : directory :=
  atlas_dir "in" (fun i x y =>
    if (i =? 0) && (x =? 5) && (y =? 2) then black else white).

(** The all-white atlases again, as a second listing of the same directory:
    the pixel functions differ outside the images only, and the listing has
    one more file. *)
Definition white_dir_again : directory :=
  fun name =>
    if String.eqb name "in/README.png"
    then Some (mk_image 1 1 (fun _ _ => black))
    else atlas_dir "in" (fun _ x _ => if x <? 0 then black else white) name.

(** ** Vocabulary of the statements *)

(** Number of 0 bits that lines 99-102 append to a list of length [n]. *)
Definition padding (n : nat) : nat :=
  if Z.of_nat n mod 8 =? 0 then 0%nat else Z.to_nat (8 - Z.of_nat n mod 8).

(** The integer handed to [bytearray] is the value of the padded list read
    as a binary numeral, first bit most significant ([be_value]); the code
    computes it from the reversed list ([le_value]). *)

Fixpoint le_value (bits : list Z) : Z :=
  match bits with
  | [] => 0
  | v :: rest => v + 2 * le_value rest
  end.

Definition be_value (bits : list Z) : Z :=
  fold_left (fun acc v => 2 * acc + v) bits 0.

(** The caller's list after the call, as a statement of purity would have
    it. *)
Definition argument_unchanged (bit_array : list Z) : Prop :=
  fst (bits_to_byte_array bit_array) = bit_array.

Definition is_black (px : rgba) : Prop :=
  let '(_r, _g, _b, _) := px in _r = 0 /\ _g = 0 /\ _b = 0.

Definition is_white (px : rgba) : Prop :=
  let '(_r, _g, _b, _) := px in _r = 255 /\ _g = 255 /\ _b = 255.

(** The slots and pixels that the loops of lines 48-57 visit at level [i]:
    every grid slot but the reserved one, and in it the rows [1..height-1]
    and columns [1..width-1] of the cell. *)
Definition sampled (i width height row col h w : Z) : Prop :=
  0 <= row < 8 /\ 0 <= col < 16 /\ ~ (i = 9 /\ row = 7 /\ col = 15)
  /\ 1 <= h < height /\ 1 <= w < width.

(** What can go wrong when the pixel at [(x, y)] is sampled. *)
Definition pixel_error (img_name : string) (img : image) (x y : Z) (e : exn)
    : Prop :=
  pixel_access img x y = inl e
  \/ exists _r _g _b _a,
       pixel_access img x y = inr (_r, _g, _b, _a)
       /\ ~ is_black (_r, _g, _b, _a) /\ ~ is_white (_r, _g, _b, _a)
       /\ e = invalid_image img_name _r _g _b.

(** The drawable block of the grid slot [(row, col)]. *)
Definition in_block (width height row col x y : Z) : Prop :=
  col * (width + 1) + 1 <= x < col * (width + 1) + width
  /\ row * (height + 1) + 1 <= y < row * (height + 1) + height.

(** Two images with the same dimensions and the same pixels. *)
Definition same_image (img img' : image) : Prop :=
  img_width img = img_width img' /\ img_height img = img_height img'
  /\ forall x y, 0 <= x < img_width img -> 0 <= y < img_height img ->
       img_load img x y = img_load img' x y.

(** Two directory entries that [open] cannot tell apart. *)
Definition same_file (f f' : option image) : Prop :=
  match f, f' with
  | None, None => True
  | Some img, Some img' => same_image img img'
  | _, _ => False
  end.

(** Every level has its atlas, of the expected dimensions. *)
Definition well_formed_dir (dir : directory) (input_image_dir : string) : Prop :=
  forall i width, In (i, width) (Py.enumerate PIXEL_WIDTHS) ->
    exists img,
      dir (img_name_of input_image_dir i width (width * 2)) = Some img
      /\ img_width img = (width + 1) * 16 + 1
      /\ img_height img = (width * 2 + 1) * 8 + 1.

(** The file length that the byte-count example of the specification gives
    for all-white atlases. *)
Definition claimed_white_length : Z :=
  Py.sum (map (fun '(i, width) =>
                 (if i =? 9 then 127 else 128) * (width * 2 - 1)
                 * PackSpec.ceil_div8 (width - 1))
            (Py.enumerate PIXEL_WIDTHS)).

(** ** What a directory of black and white atlases is encoded to *)

(** Line 62: the test for a black pixel. *)
Definition is_black_b (px : rgba) : bool :=
  let '(_r, _g, _b, _) := px in (_r =? 0) && (_g =? 0) && (_b =? 0).

Definition bit_of (px : rgba) : Z := if is_black_b px then 1 else 0.

(** The bits of pixel row [h] of the glyph at [(row, col)]. *)
Definition row_bits (img : image) (width height row col h : Z) : list Z :=
  map (fun w => bit_of (img_load img (col * (width + 1) + w)
                          (row * (height + 1) + h)))
      (Py.range 1 width).

(** As many zero bytes as the value of the padded row. *)
Definition row_bytes (img : image) (width height row col h : Z) : list byte :=
  let bits := row_bits img width height row col h in
  repeat x00 (Z.to_nat (be_value (bits ++ repeat 0 (padding (List.length bits))))).

Definition glyph_bytes (img : image) (width height row col : Z) : list byte :=
  flat_map (row_bytes img width height row col) (Py.range 1 height).

Definition level_bytes (img : image) (i width height : Z) : list byte :=
  flat_map (fun row =>
    flat_map (fun col =>
      if (i =? 9) && (row =? 7) && (col =? 15) then []
      else glyph_bytes img width height row col)
      (Py.range 0 16))
    (Py.range 0 8).

Definition file_bytes (dir : directory) (input_image_dir : string) : list byte :=
  flat_map (fun '(i, width) =>
              match dir (img_name_of input_image_dir i width (width * 2)) with
              | Some img => level_bytes img i width (width * 2)
              | None => []
              end)
           (Py.enumerate PIXEL_WIDTHS).

(** The bytes of the glyphs of a level in all slots but the one at row 7,
    column 15, which is the last one that the grid loops reach. *)
Definition other_slots_bytes (img : image) (width height : Z) : list byte :=
  flat_map (fun row =>
              flat_map (fun col => glyph_bytes img width height row col)
                (Py.range 0 16))
    (Py.range 0 7)
  ++ flat_map (fun col => glyph_bytes img width height 7 col) (Py.range 0 15).

(** Every level has its atlas, of the expected dimensions, and every
    sampled pixel of it is black or white. *)
Definition valid_dir (dir : directory) (input_image_dir : string) : Prop :=
  forall i width, In (i, width) (Py.enumerate PIXEL_WIDTHS) ->
    exists img,
      dir (img_name_of input_image_dir i width (width * 2)) = Some img
      /\ img_width img = (width + 1) * 16 + 1
      /\ img_height img = (width * 2 + 1) * 8 + 1
      /\ forall row col h w,
           sampled i width (width * 2) row col h w ->
           let px := img_load img (col * (width + 1) + w)
                       (row * (width * 2 + 1) + h) in
           is_black px \/ is_white px.

(** [out'] is [out] followed by zero bytes only. *)
Definition zero_extension (out out' : outfile) : Prop :=
  exists bs, out' = out ++ bs /\ Forall (eq x00) bs.

(** Two pixels with the same red, green and blue bands. *)
Definition same_rgb (px px' : rgba) : Prop :=
  let '(_r, _g, _b, _) := px in
  let '(_r', _g', _b', _) := px' in
  _r = _r' /\ _g = _g' /\ _b = _b'.

(** The exceptions that name a level of the directory. *)
Definition level_exception (dir : directory) (input_image_dir : string)
    (e : exn) : Prop :=
  exists i width,
    In (i, width) (Py.enumerate PIXEL_WIDTHS)
    /\ let name := img_name_of input_image_dir i width (width * 2) in
       (dir name = None /\ e = FileNotFoundError name)
       \/ exists img, dir name = Some img
            /\ (e = bad_dimensions name img
                \/ exists _r _g _b, e = invalid_image name _r _g _b).

(** All-white atlases with a fully transparent alpha band, and a grey pixel
    in the top left corner, on the separator lines. *)
Definition transparent_dir : directory :=
  atlas_dir "in" (fun _ x y =>
    if (x =? 0) && (y =? 0) then (128, 128, 128, 0) else (255, 255, 255, 0)).

(** All-white atlases, except for one pixel in the glyph at row 7,
    column 15 of level 0 (the last pixel of its first row), which is black
    in [black_corner_dir] and grey in [grey_corner_dir]. *)
Definition black_corner_dir : directory :=
  atlas_dir "in" (fun i x y =>
    if (i =? 0) && (x =? 110) && (y =? 92) then black else white).

Definition grey_corner_dir : directory :=
  atlas_dir "in" (fun i x y =>
    if (i =? 0) && (x =? 110) && (y =? 92) then (128, 128, 128, 255)
    else white).

(** The all-white atlases without the atlas of level 2. *)
Definition missing_dir : directory :=
  fun name =>
    if String.eqb name "in/0x02_10x20_0-127.png" then None else white_dir name.

(** ** [main] (lines 108-190)

    The command line has been parsed: exactly one of [--encode] and
    [--decode] was given, together with the two paths.  Python's
    [str.lower] applies the Unicode case mapping; [main] takes it as the
    parameter [lower], and needs no more of it than that it maps a path to
    a path. *)

Module PyStr.

(** The case mapping of the letters A-Z, which is what [s.lower()] does to
    a path written in ASCII; it instantiates [lower] in the examples, whose
    paths are ASCII. *)
Definition ascii_lower_char (c : ascii) : ascii :=
  let n := nat_of_ascii c in
  if ((65 <=? n) && (n <=? 90))%nat then ascii_of_nat (n + 32) else c.

Fixpoint ascii_lower (s : string) : string :=
  match s with
  | EmptyString => EmptyString
  | String c s' => String (ascii_lower_char c) (ascii_lower s')
  end.

(** [s.endswith(suffix)]: [s] is [suffix], or what follows its first
    character ends with [suffix]. *)
Fixpoint endswith (s suffix : string) : bool :=
  String.eqb s suffix
  || match s with
     | EmptyString => false
     | String _ s' => endswith s' suffix
     end.

End PyStr.

Record args : Type := mk_args {
  encode : bool;
  input_path : string;
  output_path : string
}.

(** What [main] can end with: the [IOError] of one of its own checks, the
    [OSError] of opening the output file for writing (line 25), or an
    exception of the codec. *)
Inductive main_exn : Type :=
| IOError (msg : string)
| OSError (filename : string)
| Codec (e : exn).

(** The file system as [main] and the codec see it. *)
Record os : Type := mk_os {
  isdir : string -> bool;                   (* os.path.isdir *)
  scandir : string -> option (list string); (* entry names; None: OSError *)
  path_exists : string -> bool;             (* os.path.exists *)
  access_w : string -> bool;                (* os.access(_, os.W_OK) *)
  dirname : string -> string;               (* os.path.dirname *)
  can_open_w : string -> bool;              (* open(_, 'wb') succeeds *)
  images : directory;                       (* the images, by path *)
  files : string -> option (list byte)      (* the binary files, by path *)
}.

(** Lines 140-142: the assertion on the input directory; an [OSError] of
    [os.scandir] is caught like the [AssertionError]. *)
Definition input_dir_ok (w : os) (input_dir : string) : bool :=
  isdir w input_dir
  && match scandir w input_dir with
     | Some names => existsb (fun name => PyStr.endswith name ".png") names
     | None => false
     end.

(** Lines 152-153 *)
Definition output_file_ok (lower : string -> string) (w : os)
    (output_file : string) : bool :=
  PyStr.endswith (lower output_file) ".hzk"
  && (path_exists w output_file || access_w w (dirname w output_file)).

(** Line 170 *)
Definition input_file_ok (lower : string -> string) (w : os)
    (input_file : string) : bool :=
  PyStr.endswith (lower input_file) ".hzk" && path_exists w input_file.

(** Lines 180-181 *)
Definition output_dir_ok (w : os) (output_dir : string) : bool :=
  isdir w output_dir || access_w w (dirname w output_dir).

(** [main]: the bytes of the output file when it was opened for writing,
    the images after the run, and how the run ended. *)
Definition main (lower : string -> string) (w : os) (a : args)
    : option outfile * directory * (main_exn + unit) :=
  if encode a then
    let input_dir := input_path a in
    let output_file := output_path a in
    if negb (input_dir_ok w input_dir) then
      (None, images w,
       inl (IOError ("Invalid input path: `" ++ input_dir ++ "`. "
                       ++ "Path must be a readable directory with .png files in it.")%string))
    else if negb (output_file_ok lower w output_file) then
      (None, images w,
       inl (IOError ("Invalid output file: `" ++ output_file ++ "`. "
                       ++ "File must be of type '.hzk' and be writeable by this program.")%string))
    else if negb (can_open_w w output_file) then
      (None, images w, inl (OSError output_file))
    else
      let '(out, r) := encode_hzk_file (images w) input_dir in
      (Some out, images w,
       match r with
       | inl e => inl (Codec e)
       | inr _ => inr tt
       end)
  else
    let input_file := input_path a in
    let output_dir := output_path a in
    if negb (input_file_ok lower w input_file) then
      (None, images w,
       inl (IOError ("Invalid input file: `" ++ input_file ++ "`. "
                       ++ "File must be of type '.hzk' and be readable by this program.")%string))
    else if negb (output_dir_ok w output_dir) then
      (None, images w,
       inl (IOError ("Invalid output path: `" ++ output_dir ++ "`. "
                       ++ "Path must be a writeable directory.")%string))
    else
      let '(imgs, r) := decode_hzk_file (files w) input_file (images w) in
      (None, imgs,
       match r with
       | inl e => inl (Codec e)
       | inr _ => inr tt
       end).

(** A file system with the all-white atlases in the directory [in]. *)
Definition white_os : os :=
  mk_os (fun p => String.eqb p "in" || String.eqb p "out")
        (fun p => if String.eqb p "in"
                  then Some ["0x00_6x12_0-127.png"; "notes.txt"] else None)
        (fun p => String.eqb p "old.hzk")
        (fun p => String.eqb p "out")
        (fun p => if String.eqb p "out/FONT.HZK" then "out" else "")
        (fun _ => true)
        white_dir
        (fun p => if String.eqb p "old.hzk" then Some [] else None).

(** * Properties *)

(** ** Python built-ins *)

Lemma range_length (lo hi : Z) :
  List.length (Py.range lo hi) = Z.to_nat (hi - lo).
Proof. unfold Py.range. now rewrite length_map, length_seq. Qed.

Lemma range_In (lo hi x : Z) : In x (Py.range lo hi) <-> lo <= x < hi.
Proof.
  unfold Py.range. rewrite in_map_iff. split.
  - intros [k [<- Hk]]. apply in_seq in Hk. lia.
  - intros Hx. exists (Z.to_nat (x - lo)). split; [lia|].
    apply in_seq. lia.
Qed.

Lemma sum_from (xs : list Z) (acc : Z) :
  fold_left Z.add xs acc = acc + Py.sum xs.
Proof.
  unfold Py.sum. revert acc.
  induction xs as [|x xs IH]; intros acc; simpl; [lia|].
  rewrite (IH (acc + x)), (IH x). lia.
Qed.

Lemma sum_cons (x : Z) (xs : list Z) : Py.sum (x :: xs) = x + Py.sum xs.
Proof. unfold Py.sum at 1. simpl. apply sum_from. Qed.

(** ** The padding loop of [bits_to_byte_array] *)

Lemma append_loop {A : Type} (xs : list A) (l : list Z) :
  fold_left (fun l _ => l ++ [0]) xs l = l ++ repeat 0 (List.length xs).
Proof.
  revert l. induction xs as [|x xs IH]; intros l; simpl.
  - now rewrite app_nil_r.
  - rewrite IH, <- app_assoc. reflexivity.
Qed.

Lemma bits_to_byte_array_list (bit_array : list Z) :
  fst (bits_to_byte_array bit_array)
  = bit_array ++ repeat 0 (padding (List.length bit_array)).
Proof.
  unfold bits_to_byte_array, padding. simpl.
  destruct (Z.of_nat (List.length bit_array) mod 8 =? 0); simpl.
  - now rewrite app_nil_r.
  - now rewrite append_loop, range_length, Z.sub_0_r.
Qed.

Lemma bits_to_byte_array_bytes (bit_array : list Z) :
  snd (bits_to_byte_array bit_array)
  = Py.bytearray
      (Py.sum (map (fun '(i, v) => Z.shiftl v i)
                 (Py.enumerate (rev (fst (bits_to_byte_array bit_array)))))).
Proof. reflexivity. Qed.

Lemma padded_length (n : nat) : (Z.of_nat (n + padding n)) mod 8 = 0.
Proof.
  unfold padding. destruct (Z.eqb_spec (Z.of_nat n mod 8) 0) as [E|E].
  - now rewrite Nat.add_0_r.
  - pose proof (Z.mod_pos_bound (Z.of_nat n) 8 ltac:(lia)) as B.
    rewrite Nat2Z.inj_add, Z2Nat.id by lia.
    rewrite (Z.div_mod (Z.of_nat n) 8) at 1 by lia.
    replace (8 * (Z.of_nat n / 8) + Z.of_nat n mod 8 + (8 - Z.of_nat n mod 8))
      with ((Z.of_nat n / 8 + 1) * 8) by lia.
    apply Z.mod_mul. lia.
Qed.

(** ** What the returned [bytearray] holds *)

Lemma le_value_rev (bits : list Z) : le_value (rev bits) = be_value bits.
Proof.
  unfold be_value.
  induction bits as [|v bits IH] using rev_ind; [reflexivity|].
  rewrite rev_app_distr, fold_left_app.
  cbn [rev app fold_left le_value]. rewrite IH. lia.
Qed.

Lemma sum_shifted_from (bits : list Z) (s : nat) :
  Py.sum (map (fun '(i, v) => Z.shiftl v i)
            (combine (map Z.of_nat (seq s (List.length bits))) bits))
  = 2 ^ Z.of_nat s * le_value bits.
Proof.
  revert s. induction bits as [|v bits IH]; intros s.
  - cbn [List.length seq map combine le_value]. unfold Py.sum. simpl. lia.
  - cbn [List.length seq map combine le_value].
    rewrite sum_cons, (IH (S s)), Z.shiftl_mul_pow2 by lia.
    rewrite Nat2Z.inj_succ, Z.pow_succ_r by lia. ring.
Qed.

Lemma sum_shifted (bits : list Z) :
  Py.sum (map (fun '(i, v) => Z.shiftl v i) (Py.enumerate (rev bits)))
  = be_value bits.
Proof.
  unfold Py.enumerate. rewrite sum_shifted_from, le_value_rev. simpl.
  destruct (be_value bits); reflexivity.
Qed.

Lemma be_value_nonneg (bits : list Z) :
  Forall is_bit bits -> 0 <= be_value bits.
Proof.
  unfold be_value. intros H.
  enough (G : forall acc, 0 <= acc -> 0 <= fold_left (fun a v => 2 * a + v) bits acc)
    by (apply G; lia).
  induction H as [|v bits Hv _ IH]; intros acc Hacc; cbn [fold_left];
    [assumption|].
  apply IH. destruct Hv; lia.
Qed.

Lemma be_value_zeros (n : nat) : be_value (repeat 0 n) = 0.
Proof.
  unfold be_value. induction n as [|n IH]; simpl; [reflexivity|exact IH].
Qed.

Lemma be_value_app_zeros (bits : list Z) (k : nat) :
  be_value (bits ++ repeat 0 k) = be_value bits * 2 ^ Z.of_nat k.
Proof.
  unfold be_value. rewrite fold_left_app.
  generalize (fold_left (fun acc v => 2 * acc + v) bits 0). intros a.
  revert a. induction k as [|k IH]; intros a.
  - cbn [repeat fold_left]. change (Z.of_nat 0) with 0. lia.
  - cbn [repeat fold_left]. rewrite IH, Nat2Z.inj_succ, Z.pow_succ_r by lia.
    ring.
Qed.


Lemma be_value_bound (bits : list Z) :
  Forall is_bit bits -> 0 <= be_value bits < 2 ^ Z.of_nat (List.length bits).
Proof.
  induction bits as [|v bits IH] using rev_ind; intros H.
  - cbn. lia.
  - apply Forall_app in H. destruct H as [Hb Hv].
    apply Forall_inv in Hv. specialize (IH Hb).
    unfold be_value in *. rewrite fold_left_app. cbn [fold_left].
    rewrite length_app. cbn [List.length].
    rewrite Nat2Z.inj_add, Z.pow_add_r by lia.
    change (Z.of_nat 1) with 1. rewrite Z.pow_1_r.
    destruct Hv; lia.
Qed.

Lemma be_value_zero_iff (bits : list Z) :
  Forall is_bit bits -> (be_value bits = 0 <-> Forall (eq 0) bits).
Proof.
  induction bits as [|v bits IH] using rev_ind; intros H.
  - split; [constructor|reflexivity].
  - apply Forall_app in H. destruct H as [Hb Hv].
    apply Forall_inv in Hv. specialize (IH Hb).
    pose proof (be_value_nonneg bits Hb) as N.
    assert (E : be_value (bits ++ [v]) = 2 * be_value bits + v).
    { unfold be_value. rewrite fold_left_app. reflexivity. }
    rewrite E. split.
    + intros Z0. apply Forall_app. split.
      * apply IH. destruct Hv; lia.
      * constructor; [destruct Hv; lia|constructor].
    + intros F. apply Forall_app in F. destruct F as [Fb Fv].
      apply Forall_inv in Fv. apply IH in Fb. lia.
Qed.

Lemma zeros_yield_no_bytes (n : nat) :
  snd (bits_to_byte_array (repeat 0 n)) = inr [].
Proof.
  rewrite bits_to_byte_array_bytes, bits_to_byte_array_list, sum_shifted.
  rewrite <- repeat_app, be_value_zeros. reflexivity.
Qed.

(** The value handed to [bytearray] for a list of bits. *)
Lemma padded_value_nonneg (bit_array : list Z) :
  Forall is_bit bit_array ->
  0 <= be_value (bit_array ++ repeat 0 (padding (List.length bit_array))).
Proof.
  intros H. apply be_value_nonneg, Forall_app. split; [assumption|].
  apply Forall_forall. intros x Hx. apply repeat_spec in Hx. now left.
Qed.

(** For a list of bits whose padded value fits an index, the call succeeds
    and returns as many zero bytes as that value. *)
Lemma bits_to_byte_array_returns (bit_array : list Z) :
  Forall is_bit bit_array ->
  be_value (bit_array ++ repeat 0 (padding (List.length bit_array)))
  <= Py.maxsize ->
  snd (bits_to_byte_array bit_array)
  = inr (repeat x00
           (Z.to_nat (be_value (bit_array
                                  ++ repeat 0 (padding (List.length bit_array)))))).
Proof.
  intros H B. pose proof (padded_value_nonneg bit_array H) as P.
  rewrite bits_to_byte_array_bytes, bits_to_byte_array_list, sum_shifted.
  unfold Py.bytearray.
  rewrite (proj2 (Z.ltb_ge _ 0) P), (proj2 (Z.ltb_ge Py.maxsize _) B).
  reflexivity.
Qed.

(** Above that, it raises. *)
Lemma bits_to_byte_array_overflows (bit_array : list Z) :
  Forall is_bit bit_array ->
  Py.maxsize
  < be_value (bit_array ++ repeat 0 (padding (List.length bit_array))) ->
  snd (bits_to_byte_array bit_array)
  = inl (OverflowError "cannot fit 'int' into an index-sized integer").
Proof.
  intros H B. pose proof (padded_value_nonneg bit_array H) as P.
  rewrite bits_to_byte_array_bytes, bits_to_byte_array_list, sum_shifted.
  unfold Py.bytearray.
  rewrite (proj2 (Z.ltb_ge _ 0) P), (proj2 (Z.ltb_lt Py.maxsize _) B).
  reflexivity.
Qed.

(** Whatever is returned for a list of bits is a run of zero bytes. *)
Lemma bits_to_byte_array_zero_bytes (bit_array : list Z) (bs : list byte) :
  Forall is_bit bit_array ->
  snd (bits_to_byte_array bit_array) = inr bs -> Forall (eq x00) bs.
Proof.
  intros H R.
  destruct (Z_le_gt_dec
              (be_value (bit_array
                         ++ repeat 0 (padding (List.length bit_array))))
              Py.maxsize) as [B|B].
  - rewrite (bits_to_byte_array_returns bit_array H B) in R.
    injection R as <-. apply Forall_forall. intros b Hb.
    now apply repeat_spec in Hb.
  - rewrite (bits_to_byte_array_overflows bit_array H) in R by lia.
    discriminate R.
Qed.

Lemma padded_length_small (n : nat) :
  (n <= 56)%nat -> (n + padding n <= 56)%nat.
Proof.
  intros H. unfold padding.
  pose proof (Z.mod_pos_bound (Z.of_nat n) 8 ltac:(lia)) as B.
  pose proof (Z.div_mod (Z.of_nat n) 8 ltac:(lia)) as D.
  destruct (Z.eqb_spec (Z.of_nat n mod 8) 0); lia.
Qed.

(** A row of at most 56 bits has a padded value that fits an index. *)
Lemma padded_value_small (bit_array : list Z) :
  Forall is_bit bit_array -> (List.length bit_array <= 56)%nat ->
  be_value (bit_array ++ repeat 0 (padding (List.length bit_array)))
  <= Py.maxsize.
Proof.
  intros H L. rewrite be_value_app_zeros.
  pose proof (be_value_bound bit_array H) as B.
  pose proof (padded_length_small _ L) as S.
  assert (P : 0 < 2 ^ Z.of_nat (padding (List.length bit_array)))
    by (apply Z.pow_pos_nonneg; lia).
  assert (Q : be_value bit_array * 2 ^ Z.of_nat (padding (List.length bit_array))
              < 2 ^ Z.of_nat (List.length bit_array + padding (List.length bit_array))).
  { rewrite Nat2Z.inj_add, Z.pow_add_r by lia. nia. }
  assert (R : 2 ^ Z.of_nat (List.length bit_array + padding (List.length bit_array))
              <= 2 ^ 56) by (apply Z.pow_le_mono_r; lia).
  change (2 ^ 56) with 72057594037927936 in R. unfold Py.maxsize. lia.
Qed.

(** ** The monad and its loops *)

Lemma for_each_unchanged {A : Type} (xs : list A) (body : A -> M unit)
    (out : outfile) :
  (forall x, In x xs -> body x out = (out, inr tt)) ->
  for_each xs body out = (out, inr tt).
Proof.
  induction xs as [|x xs IH]; intros H; [reflexivity|].
  cbn [for_each]. unfold bind. rewrite (H x) by now left.
  apply IH. intros y Hy. apply H. now right.
Qed.

Lemma for_each_ext {A : Type} (xs : list A) (body body' : A -> M unit) :
  (forall x out, In x xs -> body x out = body' x out) ->
  forall out, for_each xs body out = for_each xs body' out.
Proof.
  induction xs as [|x xs IH]; intros H out; [reflexivity|].
  cbn [for_each]. unfold bind. rewrite (H x out) by now left.
  destruct (body' x out) as [out' [e|[]]]; [reflexivity|].
  apply IH. intros y o Hy. apply H. now right.
Qed.

Lemma for_each_cons {A : Type} (x : A) (xs : list A) (body : A -> M unit)
    (out : outfile) :
  for_each (x :: xs) body out
  = match body x out with
    | (out', inl e) => (out', inl e)
    | (out', inr _) => for_each xs body out'
    end.
Proof. reflexivity. Qed.

Lemma for_each_app {A : Type} (xs ys : list A) (body : A -> M unit)
    (out : outfile) :
  for_each (xs ++ ys) body out
  = (for_each xs body ;;; for_each ys body) out.
Proof.
  revert out. induction xs as [|x xs IH]; intros out.
  - reflexivity.
  - cbn [app for_each]. unfold bind in *.
    destruct (body x out) as [out' [e|[]]]; [reflexivity|]. apply IH.
Qed.

(** A loop that completes ran every one of its bodies to completion. *)
Lemma for_each_completed {A : Type} (xs : list A) (body : A -> M unit)
    (out out' : outfile) :
  for_each xs body out = (out', inr tt) ->
  forall x, In x xs -> exists o o', body x o = (o', inr tt).
Proof.
  revert out. induction xs as [|x xs IH]; intros out H y Hy; [contradiction|].
  cbn [for_each] in H. unfold bind in H.
  destruct (body x out) as [o1 [e|[]]] eqn:E; [discriminate|].
  destruct Hy as [<-|Hy].
  - now exists out, o1.
  - now apply (IH o1).
Qed.

(** Every run ends in exactly one of the two outcomes. *)
Lemma outcome_cases {A : Type} (r : outfile * (exn + A)) :
  (exists out a, r = (out, inr a)) \/ (exists out e, r = (out, inl e)).
Proof. destruct r as [out [e|a]]; [right|left]; eauto. Qed.

(** An aborted loop was aborted by one of its bodies, and nothing was
    written after that. *)
Lemma for_each_raised {A : Type} (xs : list A) (body : A -> M unit)
    (out out' : outfile) (e : exn) :
  for_each xs body out = (out', inl e) ->
  exists x o, In x xs /\ body x o = (out', inl e).
Proof.
  revert out. induction xs as [|x xs IH]; intros out H; [discriminate|].
  cbn [for_each] in H. unfold bind in H.
  destruct (body x out) as [o1 [e1|[]]] eqn:E.
  - inversion H; subst. exists x, out. split; [now left|assumption].
  - destruct (IH o1 H) as [y [o [Hy Hb]]]. exists y, o. split; [now right|assumption].
Qed.

(** A loop stops at its first failing body: the bodies before it ran, the
    ones after it did not. *)
Lemma for_each_aborts {A : Type} (pre post : list A) (x : A)
    (body : A -> M unit) (out0 out1 out2 : outfile) (e : exn) :
  for_each pre body out0 = (out1, inr tt) ->
  body x out1 = (out2, inl e) ->
  for_each (pre ++ x :: post) body out0 = (out2, inl e).
Proof.
  intros Hpre Hx. rewrite for_each_app. unfold bind. rewrite Hpre.
  cbn [for_each]. unfold bind. now rewrite Hx.
Qed.

(** ** Sampling *)

Lemma pixel_access_in_bounds (img : image) (x y : Z) :
  0 <= x < img_width img -> 0 <= y < img_height img ->
  pixel_access img x y = inr (img_load img x y).
Proof.
  intros Hx Hy. unfold pixel_access. cbv zeta.
  rewrite (proj2 (Z.ltb_ge x 0)), (proj2 (Z.ltb_ge y 0)) by lia. cbv iota.
  rewrite (proj2 (Z.ltb_ge x 0)), (proj2 (Z.ltb_ge y 0)) by lia.
  rewrite (proj2 (Z.leb_gt (img_width img) x)) by lia.
  rewrite (proj2 (Z.leb_gt (img_height img) y)) by lia. reflexivity.
Qed.

(** Once the dimension check has passed, every sampled coordinate lies
    inside the image. *)
Lemma sampled_in_bounds (img : image) (i width height row col h w : Z) :
  img_width img = (width + 1) * 16 + 1 ->
  img_height img = (height + 1) * 8 + 1 ->
  sampled i width height row col h w ->
  0 <= col * (width + 1) + w < img_width img
  /\ 0 <= row * (height + 1) + h < img_height img.
Proof.
  intros -> -> (Hr & Hc & _ & Hh & Hw). split; nia.
Qed.

Section Sampling.

Variables (img_name : string) (img : image) (width height row col h : Z).

Let x (w : Z) : Z := col * (width + 1) + w.
Let y : Z := row * (height + 1) + h.

Lemma sample_pixel_black (w : Z) (bit_array : list Z) (px : rgba) :
  pixel_access img (x w) y = inr px -> is_black px ->
  sample_pixel img_name img width height row col h w bit_array
  = inr (bit_array ++ [1]).
Proof.
  unfold sample_pixel. fold (x w). fold y. intros ->.
  destruct px as [[[r g] b] a]. intros (-> & -> & ->). reflexivity.
Qed.

Lemma sample_pixel_white (w : Z) (bit_array : list Z) (px : rgba) :
  pixel_access img (x w) y = inr px -> is_white px ->
  sample_pixel img_name img width height row col h w bit_array
  = inr (bit_array ++ [0]).
Proof.
  unfold sample_pixel. fold (x w). fold y. intros ->.
  destruct px as [[[r g] b] a]. intros (-> & -> & ->). reflexivity.
Qed.

Lemma sample_pixel_other (w : Z) (bit_array : list Z) (_r _g _b _a : Z) :
  pixel_access img (x w) y = inr (_r, _g, _b, _a) ->
  ~ is_black (_r, _g, _b, _a) -> ~ is_white (_r, _g, _b, _a) ->
  sample_pixel img_name img width height row col h w bit_array
  = inl (invalid_image img_name _r _g _b).
Proof.
  unfold sample_pixel, is_black, is_white. fold (x w). fold y. intros -> Hb Hw.
  destruct (Z.eqb_spec _r 0), (Z.eqb_spec _g 0), (Z.eqb_spec _b 0);
    cbn [andb]; try tauto;
    destruct (Z.eqb_spec _r 255), (Z.eqb_spec _g 255), (Z.eqb_spec _b 255);
    cbn [andb]; tauto.
Qed.

(** The three outcomes of sampling one pixel. *)
Lemma sample_pixel_cases (w : Z) (bit_array : list Z) :
  (exists px, pixel_access img (x w) y = inr px /\ is_black px
     /\ sample_pixel img_name img width height row col h w bit_array
        = inr (bit_array ++ [1]))
  \/ (exists px, pixel_access img (x w) y = inr px /\ is_white px
     /\ sample_pixel img_name img width height row col h w bit_array
        = inr (bit_array ++ [0]))
  \/ (exists e, pixel_error img_name img (x w) y e
     /\ sample_pixel img_name img width height row col h w bit_array
        = inl e).
Proof.
  destruct (pixel_access img (x w) y) as [e|[[[r g] b] a]] eqn:E.
  - right; right. exists e. split; [now left|].
    unfold sample_pixel. fold (x w). fold y. now rewrite E.
  - assert (D : is_black (r, g, b, a) \/ is_white (r, g, b, a)
                \/ (~ is_black (r, g, b, a) /\ ~ is_white (r, g, b, a))).
    { unfold is_black, is_white. lia. }
    destruct D as [D|[D|[D1 D2]]].
    + left. exists (r, g, b, a). split; [reflexivity|]. split; [exact D|].
      now apply sample_pixel_black with (px := (r, g, b, a)).
    + right; left. exists (r, g, b, a). split; [reflexivity|]. split; [exact D|].
      now apply sample_pixel_white with (px := (r, g, b, a)).
    + right; right. exists (invalid_image img_name r g b). split.
      * right. exists r, g, b, a. split; [exact E|]. tauto.
      * now apply sample_pixel_other with (_a := a).
Qed.

(** A row that was sampled to the end holds only bits, one per column, and
    every pixel read was black or white. *)
Lemma sample_row_completed (ws : list Z) (bit_array bits : list Z) :
  sample_row img_name img width height row col h ws bit_array = inr bits ->
  (Forall is_bit bit_array -> Forall is_bit bits)
  /\ List.length bits = (List.length bit_array + List.length ws)%nat
  /\ forall w, In w ws ->
       exists px, pixel_access img (x w) y = inr px
                  /\ (is_black px \/ is_white px).
Proof.
  revert bit_array. induction ws as [|w ws IH]; intros bit_array H.
  - inversion H; subst. split; [auto|]. split; [simpl; lia|]. intros w [].
  - cbn [sample_row] in H.
    assert (A1 : forall v, is_bit v -> Forall is_bit bit_array ->
                   Forall is_bit (bit_array ++ [v])).
    { intros v Hv Hb. apply Forall_app. split; [assumption|]. now constructor. }
    destruct (sample_pixel_cases w bit_array)
      as [(px & Hpx & Hc & E)|[(px & Hpx & Hc & E)|(e & _ & E)]];
      rewrite E in H; [| |discriminate];
      destruct (IH _ H) as (Hbits & Hlen & Hall);
      (repeat split;
       [ intros Hb; apply Hbits, A1; [(now left) || (now right)|assumption]
       | rewrite Hlen, length_app; simpl; lia
       | intros w' [<-|Hw']; [exists px; tauto|now apply Hall] ]).
Qed.

(** A row whose sampling was aborted was aborted by one of its pixels. *)
Lemma sample_row_raised (ws : list Z) (bit_array : list Z) (e : exn) :
  sample_row img_name img width height row col h ws bit_array = inl e ->
  exists w, In w ws /\ pixel_error img_name img (x w) y e.
Proof.
  revert bit_array. induction ws as [|w ws IH]; intros bit_array H;
    [discriminate|].
  cbn [sample_row] in H.
  destruct (sample_pixel_cases w bit_array)
    as [(px & _ & _ & E)|[(px & _ & _ & E)|(e' & He' & E)]]; rewrite E in H.
  - destruct (IH _ H) as [w' [Hw' Hp]]. exists w'. split; [now right|assumption].
  - destruct (IH _ H) as [w' [Hw' Hp]]. exists w'. split; [now right|assumption].
  - inversion H; subst. exists w. split; [now left|assumption].
Qed.

(** A row of white pixels is sampled as a run of 0 bits. *)
Lemma sample_row_white (ws : list Z) (bit_array : list Z) :
  (forall w, In w ws ->
     exists px, pixel_access img (x w) y = inr px /\ is_white px) ->
  sample_row img_name img width height row col h ws bit_array
  = inr (bit_array ++ repeat 0 (List.length ws)).
Proof.
  revert bit_array. induction ws as [|w ws IH]; intros bit_array H.
  - simpl. now rewrite app_nil_r.
  - cbn [sample_row]. destruct (H w) as (px & Hpx & Hw); [now left|].
    rewrite (sample_pixel_white w bit_array px Hpx Hw).
    rewrite IH by (intros w' Hw'; apply H; now right).
    now rewrite <- app_assoc.
Qed.

End Sampling.

Lemma sample_row_agree (img_name : string) (img img' : image)
    (width height row col h : Z) (ws bit_array : list Z) :
  (forall w, In w ws ->
     pixel_access img (col * (width + 1) + w) (row * (height + 1) + h)
     = pixel_access img' (col * (width + 1) + w) (row * (height + 1) + h)) ->
  sample_row img_name img width height row col h ws bit_array
  = sample_row img_name img' width height row col h ws bit_array.
Proof.
  revert bit_array. induction ws as [|w ws IH]; intros bit_array H; [reflexivity|].
  cbn [sample_row]. unfold sample_pixel. rewrite (H w) by now left.
  destruct (pixel_access img' _ _) as [e|[[[r g] b] a]]; [reflexivity|].
  destruct ((r =? 0) && (g =? 0) && (b =? 0));
    [apply IH; intros; apply H; now right|].
  destruct ((r =? 255) && (g =? 255) && (b =? 255));
    [apply IH; intros; apply H; now right|reflexivity].
Qed.

(** ** Rows, glyphs and the grid *)

Lemma reserved_test (i row col : Z) :
  (i =? 9) && (row =? 7) && (col =? 15) = true
  <-> i = 9 /\ row = 7 /\ col = 15.
Proof. rewrite !andb_true_iff, !Z.eqb_eq. tauto. Qed.

Section Grid.

Variables (img_name : string) (img : image) (i width height : Z).

Let x (col w : Z) : Z := col * (width + 1) + w.
Let y (row h : Z) : Z := row * (height + 1) + h.

(** A pixel row is written, or its sampling raises, or, for a row of more
    than 56 bits, [bytearray] raises. *)
Lemma encode_row_cases (row col h : Z) (out : outfile) :
  (exists bits bs,
     sample_row img_name img width height row col h (Py.range 1 width) []
     = inr bits
     /\ snd (bits_to_byte_array bits) = inr bs
     /\ encode_row img_name img width height row col h out
        = (out ++ bs, inr tt))
  \/ (exists e,
     sample_row img_name img width height row col h (Py.range 1 width) []
     = inl e
     /\ encode_row img_name img width height row col h out = (out, inl e))
  \/ (57 < width
      /\ exists msg,
           encode_row img_name img width height row col h out
           = (out, inl (OverflowError msg))).
Proof.
  unfold encode_row, bind, lift.
  destruct (sample_row _ _ _ _ _ _ _ _ _) as [e|bits] eqn:E.
  - right; left. exists e. split; reflexivity.
  - destruct (sample_row_completed _ _ _ _ _ _ _ _ _ _ E) as (Hb & Hl & _).
    specialize (Hb (Forall_nil _)).
    destruct (Z_le_gt_dec
                (be_value (bits ++ repeat 0 (padding (List.length bits))))
                Py.maxsize) as [B|B].
    + left. pose proof (bits_to_byte_array_returns bits Hb B) as R.
      exists bits. eexists. split; [reflexivity|]. split; [exact R|].
      unfold ret. now rewrite R.
    + right; right. split.
      * rewrite range_length in Hl. cbn [List.length] in Hl.
        destruct (Z_le_gt_dec width 57) as [W|W]; [exfalso|lia].
        pose proof (padded_value_small bits Hb ltac:(lia)). lia.
      * eexists. unfold ret.
        rewrite (bits_to_byte_array_overflows bits Hb) by lia. reflexivity.
Qed.

Lemma encode_row_raised (row col h : Z) (out out' : outfile) (e : exn) :
  encode_row img_name img width height row col h out = (out', inl e) ->
  (exists w, 1 <= w < width /\ pixel_error img_name img (x col w) (y row h) e)
  \/ (57 < width /\ exists msg, e = OverflowError msg).
Proof.
  intros H.
  destruct (encode_row_cases row col h out)
    as [(bits & bs & _ & _ & E)|[(e' & S & E)|(W & msg & E)]]; rewrite E in H;
    [discriminate| |].
  - inversion H; subst. left.
    destruct (sample_row_raised _ _ _ _ _ _ _ _ _ _ S) as [w [Hw Hp]].
    exists w. split; [now apply range_In|exact Hp].
  - inversion H; subst. right. split; [exact W|now exists msg].
Qed.

Lemma encode_row_completed (row col h : Z) (out out' : outfile) :
  encode_row img_name img width height row col h out = (out', inr tt) ->
  forall w, 1 <= w < width ->
    exists px, pixel_access img (x col w) (y row h) = inr px
               /\ (is_black px \/ is_white px).
Proof.
  intros H w Hw.
  destruct (encode_row_cases row col h out)
    as [(bits & bs & S & _ & _)|[(e' & _ & E)|(_ & msg & E)]];
    [|rewrite E in H; discriminate|rewrite E in H; discriminate].
  destruct (sample_row_completed _ _ _ _ _ _ _ _ _ _ S) as (_ & _ & Hall).
  apply Hall. now apply range_In.
Qed.

Lemma encode_row_white (row col h : Z) (out : outfile) :
  (forall w, 1 <= w < width ->
     exists px, pixel_access img (x col w) (y row h) = inr px /\ is_white px) ->
  encode_row img_name img width height row col h out = (out, inr tt).
Proof.
  intros H. unfold encode_row, bind, lift.
  rewrite sample_row_white by (intros w Hw; apply H; now apply range_In).
  cbn [app]. unfold ret. rewrite zeros_yield_no_bytes.
  unfold write. now rewrite app_nil_r.
Qed.

(** The grid loops visit exactly the sampled slots. *)
Lemma encode_grid_raised (out out' : outfile) (e : exn) :
  encode_grid img_name img i width height out = (out', inl e) ->
  (exists row col h w,
     sampled i width height row col h w
     /\ pixel_error img_name img (x col w) (y row h) e)
  \/ (57 < width /\ exists msg, e = OverflowError msg).
Proof.
  intros H. apply for_each_raised in H. destruct H as (row & o1 & Hrow & H).
  apply for_each_raised in H. destruct H as (col & o2 & Hcol & H).
  unfold encode_slot in H.
  destruct ((i =? 9) && (row =? 7) && (col =? 15)) eqn:T; [discriminate|].
  apply for_each_raised in H. destruct H as (h & o3 & Hh & H).
  apply encode_row_raised in H. destruct H as [(w & Hw & Hp)|O]; [left|now right].
  exists row, col, h, w. split; [|exact Hp].
  apply range_In in Hrow, Hcol, Hh. unfold sampled.
  repeat split; try lia;
    intros R; apply reserved_test in R; congruence.
Qed.

Lemma encode_grid_completed (out out' : outfile) :
  encode_grid img_name img i width height out = (out', inr tt) ->
  forall row col h w,
    sampled i width height row col h w ->
    exists px, pixel_access img (x col w) (y row h) = inr px
               /\ (is_black px \/ is_white px).
Proof.
  intros H row col h w (Hr & Hc & Hn & Hh & Hw).
  destruct (for_each_completed _ _ _ _ H row) as (o1 & o1' & H1);
    [apply range_In; lia|].
  destruct (for_each_completed _ _ _ _ H1 col) as (o2 & o2' & H2);
    [apply range_In; lia|].
  unfold encode_slot in H2.
  destruct ((i =? 9) && (row =? 7) && (col =? 15)) eqn:T;
    [apply reserved_test in T; contradiction|].
  destruct (for_each_completed _ _ _ _ H2 h) as (o3 & o3' & H3);
    [apply range_In; lia|].
  now apply (encode_row_completed _ _ _ _ _ H3).
Qed.

Lemma encode_grid_white (out : outfile) :
  (forall row col h w,
     sampled i width height row col h w ->
     exists px, pixel_access img (x col w) (y row h) = inr px /\ is_white px) ->
  encode_grid img_name img i width height out = (out, inr tt).
Proof.
  intros H. apply for_each_unchanged. intros row Hrow.
  apply for_each_unchanged. intros col Hcol.
  unfold encode_slot.
  destruct ((i =? 9) && (row =? 7) && (col =? 15)) eqn:T; [reflexivity|].
  apply for_each_unchanged. intros h Hh.
  apply encode_row_white. intros w Hw. apply H.
  apply range_In in Hrow, Hcol, Hh. unfold sampled.
  repeat split; try lia;
    intros R; apply reserved_test in R; congruence.
Qed.

End Grid.

(** The grid of an atlas depends on the image only through the pixels of the
    sampled slots. *)
Lemma encode_grid_agree (img_name : string) (img img' : image)
    (i width height : Z) :
  (forall row col h w,
     sampled i width height row col h w ->
     pixel_access img (col * (width + 1) + w) (row * (height + 1) + h)
     = pixel_access img' (col * (width + 1) + w) (row * (height + 1) + h)) ->
  forall out,
    encode_grid img_name img i width height out
    = encode_grid img_name img' i width height out.
Proof.
  intros H. apply for_each_ext. intros row o1 Hrow.
  apply for_each_ext. intros col o2 Hcol.
  unfold encode_slot.
  destruct ((i =? 9) && (row =? 7) && (col =? 15)) eqn:T; [reflexivity|].
  apply for_each_ext. intros h o3 Hh.
  unfold encode_row.
  rewrite (sample_row_agree img_name img img'); [reflexivity|].
  intros w Hw. apply H.
  apply range_In in Hrow, Hcol, Hh, Hw. unfold sampled.
  repeat split; try lia;
    intros R; apply reserved_test in R; congruence.
Qed.

(** ** Levels *)

Lemma levels_In (i width : Z) :
  In (i, width) (Py.enumerate PIXEL_WIDTHS) ->
  (i, width) = (0, 6) \/ (i, width) = (1, 8) \/ (i, width) = (2, 10)
  \/ (i, width) = (3, 12) \/ (i, width) = (4, 14) \/ (i, width) = (5, 16)
  \/ (i, width) = (6, 20) \/ (i, width) = (7, 24) \/ (i, width) = (8, 28)
  \/ (i, width) = (9, 32).
Proof.
  cbv [Py.enumerate PIXEL_WIDTHS List.length seq map combine Z.of_nat
       Pos.of_succ_nat Pos.succ In].
  intuition congruence.
Qed.

Lemma levels_width (i width : Z) :
  In (i, width) (Py.enumerate PIXEL_WIDTHS) -> width <= 57.
Proof.
  intros H. apply levels_In in H.
  repeat (destruct H as [H|H]; [injection H as _ ->; lia|]).
  injection H as _ ->; lia.
Qed.

Lemma check_dimensions_passes (img_name : string) (img : image)
    (image_width image_height : Z) :
  img_width img = image_width -> img_height img = image_height ->
  check_dimensions img_name img image_width image_height = inr tt.
Proof.
  intros <- <-. unfold check_dimensions. now rewrite !Z.eqb_refl.
Qed.

Lemma check_dimensions_fails (img_name : string) (img : image)
    (image_width image_height : Z) :
  img_width img <> image_width \/ img_height img <> image_height ->
  check_dimensions img_name img image_width image_height
  = inl (bad_dimensions img_name img).
Proof.
  intros H. unfold check_dimensions.
  destruct (Z.eqb_spec (img_height img) image_height),
           (Z.eqb_spec (img_width img) image_width); cbn [andb];
    try reflexivity.
  destruct H; contradiction.
Qed.

Lemma check_dimensions_cases (img_name : string) (img : image)
    (image_width image_height : Z) :
  (img_width img = image_width /\ img_height img = image_height
   /\ check_dimensions img_name img image_width image_height = inr tt)
  \/ ((img_width img <> image_width \/ img_height img <> image_height)
      /\ check_dimensions img_name img image_width image_height
         = inl (bad_dimensions img_name img)).
Proof.
  destruct (Z.eq_dec (img_width img) image_width) as [W|W];
    [destruct (Z.eq_dec (img_height img) image_height) as [H|H]|].
  - left. auto using check_dimensions_passes.
  - right. split; [now right|]. apply check_dimensions_fails. now right.
  - right. split; [now left|]. apply check_dimensions_fails. now left.
Qed.

Section Level.

Variables (dir : directory) (input_image_dir : string) (i width : Z).

Let name : string := img_name_of input_image_dir i width (width * 2).

Lemma encode_level_missing (out : outfile) :
  dir name = None ->
  encode_level dir input_image_dir (i, width) out
  = (out, inl (FileNotFoundError name)).
Proof. intros H. unfold encode_level. fold name. now rewrite H. Qed.

Lemma encode_level_bad_dimensions (img : image) (out : outfile) :
  dir name = Some img ->
  img_width img <> (width + 1) * 16 + 1
  \/ img_height img <> (width * 2 + 1) * 8 + 1 ->
  encode_level dir input_image_dir (i, width) out
  = (out, inl (bad_dimensions name img)).
Proof.
  intros H D. unfold encode_level. fold name. rewrite H.
  unfold bind, lift. now rewrite (check_dimensions_fails _ _ _ _ D).
Qed.

Lemma encode_level_grid (img : image) (out : outfile) :
  dir name = Some img ->
  img_width img = (width + 1) * 16 + 1 ->
  img_height img = (width * 2 + 1) * 8 + 1 ->
  encode_level dir input_image_dir (i, width) out
  = encode_grid name img i width (width * 2) out.
Proof.
  intros H W Ht. unfold encode_level. fold name. rewrite H.
  unfold bind, lift. now rewrite (check_dimensions_passes _ _ _ _ W Ht).
Qed.

(** Past the dimension check, a sampled pixel is read from the image. *)
Lemma sampled_access (img : image) (row col h w : Z) :
  img_width img = (width + 1) * 16 + 1 ->
  img_height img = (width * 2 + 1) * 8 + 1 ->
  sampled i width (width * 2) row col h w ->
  pixel_access img (col * (width + 1) + w) (row * (width * 2 + 1) + h)
  = inr (img_load img (col * (width + 1) + w) (row * (width * 2 + 1) + h)).
Proof.
  intros W Ht S.
  destruct (sampled_in_bounds img i width (width * 2) row col h w W Ht S).
  now apply pixel_access_in_bounds.
Qed.

(** The only exceptions of a level: a missing file, a dimension mismatch,
    and, past both, the colour of a sampled pixel. *)
Lemma encode_level_raised (out out' : outfile) (e : exn) :
  width <= 57 ->
  encode_level dir input_image_dir (i, width) out = (out', inl e) ->
  (dir name = None /\ e = FileNotFoundError name)
  \/ exists img, dir name = Some img
       /\ (((img_width img <> (width + 1) * 16 + 1
             \/ img_height img <> (width * 2 + 1) * 8 + 1)
            /\ e = bad_dimensions name img)
           \/ (img_width img = (width + 1) * 16 + 1
               /\ img_height img = (width * 2 + 1) * 8 + 1
               /\ exists row col h w _r _g _b _a,
                    sampled i width (width * 2) row col h w
                    /\ img_load img (col * (width + 1) + w)
                         (row * (width * 2 + 1) + h) = (_r, _g, _b, _a)
                    /\ ~ is_black (_r, _g, _b, _a)
                    /\ ~ is_white (_r, _g, _b, _a)
                    /\ e = invalid_image name _r _g _b)).
Proof.
  intros Wd H. destruct (dir name) as [img|] eqn:D.
  - right. exists img. split; [reflexivity|].
    destruct (check_dimensions_cases name img ((width + 1) * 16 + 1)
                ((width * 2 + 1) * 8 + 1)) as [(W & Ht & _)|(B & _)].
    + right. split; [exact W|]. split; [exact Ht|].
      rewrite (encode_level_grid img out D W Ht) in H.
      apply encode_grid_raised in H.
      destruct H as [(row & col & h & w & S & P)|(O & _)]; [|lia].
      exists row, col, h, w. unfold pixel_error in P. cbv beta zeta in P.
      rewrite (sampled_access img row col h w W Ht S) in P.
      destruct P as [P|(r & g & b & a & P & Hb & Hw & He)]; [discriminate|].
      exists r, g, b, a. injection P as P'.
      split; [exact S|]. split; [exact P'|]. auto.
    + left. split; [exact B|].
      rewrite (encode_level_bad_dimensions img out D B) in H. now inversion H.
  - left. split; [reflexivity|].
    rewrite (encode_level_missing out D) in H. now inversion H.
Qed.

(** A level that completed read only black and white pixels from an
    atlas of the expected dimensions. *)
Lemma encode_level_completed (out out' : outfile) :
  encode_level dir input_image_dir (i, width) out = (out', inr tt) ->
  exists img, dir name = Some img
    /\ img_width img = (width + 1) * 16 + 1
    /\ img_height img = (width * 2 + 1) * 8 + 1
    /\ forall row col h w,
         sampled i width (width * 2) row col h w ->
         let px := img_load img (col * (width + 1) + w)
                     (row * (width * 2 + 1) + h) in
         is_black px \/ is_white px.
Proof.
  intros H. destruct (dir name) as [img|] eqn:D;
    [|rewrite (encode_level_missing out D) in H; discriminate].
  exists img. split; [reflexivity|].
  destruct (check_dimensions_cases name img ((width + 1) * 16 + 1)
              ((width * 2 + 1) * 8 + 1)) as [(W & Ht & _)|(B & _)];
    [|rewrite (encode_level_bad_dimensions img out D B) in H; discriminate].
  split; [exact W|]. split; [exact Ht|].
  intros row col h w S px.
  rewrite (encode_level_grid img out D W Ht) in H.
  destruct (encode_grid_completed _ _ _ _ _ _ _ H row col h w S)
    as (px' & P & C).
  cbv beta zeta in P.
  rewrite (sampled_access img row col h w W Ht S) in P.
  injection P as P'. subst px. now rewrite P'.
Qed.

(** A level whose atlas is white throughout writes nothing. *)
Lemma encode_level_white (img : image) (out : outfile) :
  dir name = Some img ->
  img_width img = (width + 1) * 16 + 1 ->
  img_height img = (width * 2 + 1) * 8 + 1 ->
  (forall x y, 0 <= x < img_width img -> 0 <= y < img_height img ->
     is_white (img_load img x y)) ->
  encode_level dir input_image_dir (i, width) out = (out, inr tt).
Proof.
  intros D W Ht Wh. rewrite (encode_level_grid img out D W Ht).
  apply encode_grid_white. intros row col h w S. cbv beta zeta.
  destruct (sampled_in_bounds img i width (width * 2) row col h w W Ht S).
  eexists. split; [now apply sampled_access|]. now apply Wh.
Qed.

End Level.

(** ** Two listings of a directory *)

Lemma pixel_access_agree (img img' : image) (x y : Z) :
  img_width img = img_width img' -> img_height img = img_height img' ->
  0 <= x -> 0 <= y ->
  (x < img_width img -> y < img_height img ->
   img_load img x y = img_load img' x y) ->
  pixel_access img x y = pixel_access img' x y.
Proof.
  intros W Ht Hx Hy L. unfold pixel_access. cbv zeta.
  rewrite (proj2 (Z.ltb_ge x 0)), (proj2 (Z.ltb_ge y 0)) by lia. cbv iota.
  rewrite (proj2 (Z.ltb_ge x 0)), (proj2 (Z.ltb_ge y 0)) by lia.
  rewrite <- W, <- Ht.
  destruct (Z.leb_spec (img_width img) x); [reflexivity|].
  destruct (Z.leb_spec (img_height img) y); [reflexivity|].
  cbn [orb]. now rewrite L.
Qed.

Lemma sampled_nonneg (i width height row col h w : Z) :
  sampled i width height row col h w ->
  0 <= col * (width + 1) + w /\ 0 <= row * (height + 1) + h.
Proof. intros (Hr & Hc & _ & Hh & Hw). split; nia. Qed.

(** A level reads its atlas through its dimensions and its sampled pixels
    only. *)
Lemma encode_level_agree (dir dir' : directory) (input_image_dir : string)
    (i width : Z) :
  match dir (img_name_of input_image_dir i width (width * 2)),
        dir' (img_name_of input_image_dir i width (width * 2)) with
  | None, None => True
  | Some img, Some img' =>
      img_width img = img_width img' /\ img_height img = img_height img'
      /\ forall row col h w,
           sampled i width (width * 2) row col h w ->
           let x := col * (width + 1) + w in
           let y := row * (width * 2 + 1) + h in
           x < img_width img -> y < img_height img ->
           img_load img x y = img_load img' x y
  | _, _ => False
  end ->
  forall out,
    encode_level dir input_image_dir (i, width) out
    = encode_level dir' input_image_dir (i, width) out.
Proof.
  intros H out. unfold encode_level.
  destruct (dir _) as [img|], (dir' _) as [img'|]; try contradiction;
    [|reflexivity].
  destruct H as (W & Ht & L).
  set (name := img_name_of input_image_dir i width (width * 2)).
  assert (C : check_dimensions name img ((width + 1) * 16 + 1)
                ((width * 2 + 1) * 8 + 1)
              = check_dimensions name img' ((width + 1) * 16 + 1)
                  ((width * 2 + 1) * 8 + 1)).
  { unfold check_dimensions, bad_dimensions. now rewrite W, Ht. }
  unfold bind. rewrite C.
  destruct (check_dimensions name img' ((width + 1) * 16 + 1)
              ((width * 2 + 1) * 8 + 1)) as [e|[]]; cbv [lift raise ret];
    [reflexivity|].
  apply encode_grid_agree. intros row col h w S.
  destruct (sampled_nonneg _ _ _ _ _ _ _ S).
  apply pixel_access_agree; try assumption. now apply L.
Qed.

(** ** The example atlases *)

Lemma atlas_dir_in (paint : Z -> Z -> Z -> rgba) (i width : Z) :
  In (i, width) (Py.enumerate PIXEL_WIDTHS) ->
  atlas_dir "in" paint (img_name_of "in" i width (width * 2))
  = Some (atlas width (paint i)).
Proof.
  intros H. apply levels_In in H.
  repeat (destruct H as [H|H]; [injection H as -> ->; reflexivity|]).
  injection H as -> ->; reflexivity.
Qed.

Lemma white_dir_well_formed : well_formed_dir white_dir "in".
Proof.
  intros i width H. exists (atlas width (fun _ _ => white)).
  split; [now apply (atlas_dir_in (fun _ _ _ => white))|]. split; reflexivity.
Qed.

(** ** The whole run *)

Lemma encode_hzk_file_white (dir : directory) (input_image_dir : string) :
  (forall i width, In (i, width) (Py.enumerate PIXEL_WIDTHS) ->
     exists img,
       dir (img_name_of input_image_dir i width (width * 2)) = Some img
       /\ img_width img = (width + 1) * 16 + 1
       /\ img_height img = (width * 2 + 1) * 8 + 1
       /\ forall x y, 0 <= x < img_width img -> 0 <= y < img_height img ->
            is_white (img_load img x y)) ->
  encode_hzk_file dir input_image_dir = ([], inr tt).
Proof.
  intros H. unfold encode_hzk_file, encode_levels.
  apply for_each_unchanged. intros [i width] Hl.
  destruct (H i width Hl) as (img & D & W & Ht & Wh).
  now apply encode_level_white with (img := img).
Qed.

Lemma encode_white_dir : encode_hzk_file white_dir "in" = ([], inr tt).
Proof.
  apply encode_hzk_file_white. intros i width H.
  exists (atlas width (fun _ _ => white)).
  split; [now apply (atlas_dir_in (fun _ _ _ => white))|].
  repeat split; reflexivity.
Qed.

(** A run that ends in an exception ended in the exception of one of its
    levels. *)
Lemma encode_hzk_file_raised (dir : directory) (input_image_dir : string)
    (out : outfile) (e : exn) :
  encode_hzk_file dir input_image_dir = (out, inl e) ->
  exists i width o,
    In (i, width) (Py.enumerate PIXEL_WIDTHS)
    /\ encode_level dir input_image_dir (i, width) o = (out, inl e).
Proof.
  intros H. apply for_each_raised in H. destruct H as ([i width] & o & Hl & H).
  now exists i, width, o.
Qed.

Lemma encode_hzk_file_completed (dir : directory) (input_image_dir : string)
    (out : outfile) :
  encode_hzk_file dir input_image_dir = (out, inr tt) ->
  forall i width, In (i, width) (Py.enumerate PIXEL_WIDTHS) ->
    exists o o', encode_level dir input_image_dir (i, width) o = (o', inr tt).
Proof.
  intros H i width Hl.
  exact (for_each_completed _ _ _ _ H (i, width) Hl).
Qed.

Lemma encode_hzk_file_agree (dir dir' : directory) (input_image_dir : string) :
  (forall i width out, In (i, width) (Py.enumerate PIXEL_WIDTHS) ->
     encode_level dir input_image_dir (i, width) out
     = encode_level dir' input_image_dir (i, width) out) ->
  encode_hzk_file dir input_image_dir = encode_hzk_file dir' input_image_dir.
Proof.
  intros H. unfold encode_hzk_file, encode_levels.
  apply for_each_ext. intros [i width] out Hl. now apply H.
Qed.

(** ** Bit packing *)

Example bits_to_byte_array_one :
  bits_to_byte_array [1] = ([1;0;0;0;0;0;0;0], inr (repeat x00 128)).
Proof. reflexivity. Qed.

Example pack_bits_one : PackSpec.pack_bits [1] = [x80].
Proof. reflexivity. Qed.

(** C1: [bits_to_byte_array] is claimed to pack each group of 8 bits of the
    zero-padded input into one byte, first bit most significant, giving
    ceil(n / 8) bytes.  On the one-bit list [[1]] the packing of the
    specification is the single byte 0x80, whereas the function returns 128
    zero bytes: the padded value 128 is passed to [bytearray] as a length. *)
Theorem bits_to_byte_array_not_packed :
  snd (bits_to_byte_array [1]) = inr (repeat x00 128)
  /\ PackSpec.pack_bits [1] = [x80]
  /\ PackSpec.ceil_div8 1 = 1
  /\ snd (bits_to_byte_array [1]) <> inr (PackSpec.pack_bits [1]).
Proof. repeat split. vm_compute. discriminate. Qed.

(** C10: on a list of 0 bits of any length, multiples of 8 included,
    [bits_to_byte_array] returns the empty byte sequence, and writing that
    result leaves the output file as it was. *)
Theorem bits_to_byte_array_zeros (n : nat) (out : outfile) :
  snd (bits_to_byte_array (repeat 0 n)) = inr []
  /\ (bs <- lift (snd (bits_to_byte_array (repeat 0 n))) ;; write bs) out
     = (out, inr tt).
Proof.
  pose proof (zeros_yield_no_bytes n) as E.
  split; [exact E|].
  rewrite E. unfold bind, lift, ret, write. now rewrite app_nil_r.
Qed.

(** C9, as stated, fails: the caller's one-element list [[1]] has eight
    elements after the call. *)
Lemma bits_to_byte_array_mutates_argument :
  ~ argument_unchanged [1]
  /\ List.length (fst (bits_to_byte_array [1])) = 8%nat.
Proof. split; [|reflexivity]. unfold argument_unchanged. vm_compute. discriminate. Qed.

(** C9, amended: the call leaves the caller's list with its original
    elements followed by the zero padding, 8 - (len mod 8) zeros when the
    length is not a multiple of 8 and none otherwise; the list is unchanged
    exactly when its length is a multiple of 8. *)
Theorem bits_to_byte_array_argument_effect (bit_array : list Z) :
  fst (bits_to_byte_array bit_array)
  = bit_array ++ repeat 0 (padding (List.length bit_array))
  /\ padding (List.length bit_array)
     = Z.to_nat ((8 - Z.of_nat (List.length bit_array) mod 8) mod 8)
  /\ (argument_unchanged bit_array
      <-> Z.of_nat (List.length bit_array) mod 8 = 0).
Proof.
  pose proof (Z.mod_pos_bound (Z.of_nat (List.length bit_array)) 8 ltac:(lia)) as B.
  assert (P : padding (List.length bit_array)
              = Z.to_nat ((8 - Z.of_nat (List.length bit_array) mod 8) mod 8)).
  { unfold padding.
    destruct (Z.eqb_spec (Z.of_nat (List.length bit_array) mod 8) 0) as [E|E].
    - rewrite E. reflexivity.
    - rewrite (Z.mod_small (8 - _) 8) by lia. reflexivity. }
  split; [apply bits_to_byte_array_list|]. split; [exact P|].
  unfold argument_unchanged. rewrite bits_to_byte_array_list. split.
  - intros H. apply (f_equal (@List.length Z)) in H.
    rewrite length_app, repeat_length in H.
    unfold padding in H.
    destruct (Z.eqb_spec (Z.of_nat (List.length bit_array) mod 8) 0); lia.
  - intros H. unfold padding. rewrite H. simpl. apply app_nil_r.
Qed.

Lemma bits_to_byte_array_argument_effect_witness :
  fst (bits_to_byte_array [1; 0; 1]) = [1; 0; 1; 0; 0; 0; 0; 0]
  /\ argument_unchanged [1; 1; 0; 0; 1; 0; 1; 0].
Proof.
  split.
  - exact (proj1 (bits_to_byte_array_argument_effect [1; 0; 1])).
  - apply (proj2 (proj2 (bits_to_byte_array_argument_effect
                           [1; 1; 0; 0; 1; 0; 1; 0]))).
    reflexivity.
Defined.



(** ** The encoder *)

(** C2: an all-black glyph of width 6 is claimed to be emitted as the single
    byte 0b11111000 per drawable row.  Each of its rows is sampled as five
    1 bits, which the packing of the specification turns into that byte;
    the encoder instead writes 248 zero bytes for the row, and 11 times as
    many for the glyph. *)
Theorem black_glyph_rows_not_f8 :
  sample_row "a.png" (atlas 6 (fun _ _ => black)) 6 12 0 0 1 (Py.range 1 6) []
  = inr [1; 1; 1; 1; 1]
  /\ PackSpec.pack_bits [1; 1; 1; 1; 1] = [xf8]
  /\ bits_to_byte_array [1; 1; 1; 1; 1]
     = ([1; 1; 1; 1; 1; 0; 0; 0], inr (repeat x00 248))
  /\ encode_row "a.png" (atlas 6 (fun _ _ => black)) 6 12 0 0 1 []
     = (repeat x00 248, inr tt)
  /\ encode_glyph "a.png" (atlas 6 (fun _ _ => black)) 6 12 0 0 []
     = (repeat x00 (11 * 248), inr tt).
Proof. repeat split; vm_compute; reflexivity. Qed.

(** C3: for all-white atlases the length of the output is claimed to be the
    sum over the levels of glyphs x rows x ceil((width-1)/8), which is
    122116 bytes.  The encoder writes an empty file for them. *)
Theorem white_atlases_encode_to_nothing :
  well_formed_dir white_dir "in"
  /\ encode_hzk_file white_dir "in" = ([], inr tt)
  /\ claimed_white_length = 122116
  /\ Z.of_nat (List.length (fst (encode_hzk_file white_dir "in")))
     <> claimed_white_length.
Proof.
  split; [exact white_dir_well_formed|].
  split; [exact encode_white_dir|].
  split; [reflexivity|].
  rewrite encode_white_dir. vm_compute. discriminate.
Qed.

(** C4: the expected dimensions of the atlas of a level are
    (width+1)*16+1 by (height+1)*8+1 with height = width*2; the level
    raises the dimension error, which names the file, whenever either
    dimension of the opened image differs, an [AssertionError] comes from
    nowhere else, and the error ends the whole run with only the bytes of
    the levels before it written. *)
Theorem dimension_gate (dir : directory) (input_image_dir : string)
    (pre post : list (Z * Z)) (i width : Z) (img : image)
    (out0 out : outfile) :
  let height := width * 2 in
  let image_width := (width + 1) * 16 + 1 in
  let image_height := (height + 1) * 8 + 1 in
  let img_name := img_name_of input_image_dir i width height in
  Py.enumerate PIXEL_WIDTHS = pre ++ (i, width) :: post ->
  dir img_name = Some img ->
  (img_width img <> image_width \/ img_height img <> image_height ->
   encode_level dir input_image_dir (i, width) out0
   = (out0, inl (AssertionError
                   ("Bad Dimensions: " ++ img_name ++ " ("
                      ++ Py.str (img_width img) ++ "x"
                      ++ Py.str (img_height img) ++ ")")%string)))
  /\ (forall msg out',
        encode_level dir input_image_dir (i, width) out0
        = (out', inl (AssertionError msg)) ->
        img_width img <> image_width \/ img_height img <> image_height)
  /\ (encode_levels dir input_image_dir pre [] = (out, inr tt) ->
      img_width img <> image_width \/ img_height img <> image_height ->
      encode_hzk_file dir input_image_dir
      = (out, inl (bad_dimensions img_name img))).
Proof.
  intros height image_width image_height img_name Hl D.
  split; [|split].
  - intros B. now apply encode_level_bad_dimensions.
  - intros msg out' H.
    assert (Wd : width <= 57).
    { apply (levels_width i). rewrite Hl. apply in_or_app. right. now left. }
    apply encode_level_raised in H; [|exact Wd].
    destruct H as [[N _]|(img' & D' & [[B _]|(_ & _ & H)])].
    + fold height img_name in N. congruence.
    + fold height img_name in D'. rewrite D in D'. injection D' as <-. exact B.
    + destruct H as (row & col & h & w & r & g & b & a & _ & _ & _ & _ & E).
      discriminate E.
  - intros Hpre B. unfold encode_hzk_file, encode_levels. rewrite Hl.
    apply for_each_aborts with (out1 := out); [exact Hpre|].
    now apply encode_level_bad_dimensions.
Qed.

Lemma dimension_gate_witness :
  encode_hzk_file narrow_dir "in"
  = ([], inl (AssertionError "Bad Dimensions: in/0x01_8x16_0-127.png (144x137)")).
Proof.
  refine (proj2 (proj2 (dimension_gate narrow_dir "in" [(0, 6)]
                          [(2, 10); (3, 12); (4, 14); (5, 16); (6, 20); (7, 24);
                           (8, 28); (9, 32)]
                          1 8 (mk_image 144 137 (fun _ _ => white)) [] []
                          eq_refl eq_refl)) _ _).
  - vm_compute. reflexivity.
  - left. simpl. lia.
Defined.

(** C5: a sampled pixel whose RGB is (0,0,0) appends the bit 1 and one
    whose RGB is (255,255,255) appends the bit 0; any other RGB raises the
    error that names the file and the three values, the whole run then ends
    in an exception, and when every atlas is present with the expected
    dimensions that exception is the colour error of an offending pixel. *)
Theorem colour_gate (dir : directory) (input_image_dir : string)
    (i width : Z) (img : image) (row col h w : Z) (_r _g _b _a : Z)
    (bit_array : list Z) :
  let height := width * 2 in
  let img_name := img_name_of input_image_dir i width height in
  In (i, width) (Py.enumerate PIXEL_WIDTHS) ->
  dir img_name = Some img ->
  sampled i width height row col h w ->
  pixel_access img (col * (width + 1) + w) (row * (height + 1) + h)
  = inr (_r, _g, _b, _a) ->
  ((_r, _g, _b) = (0, 0, 0) ->
   sample_pixel img_name img width height row col h w bit_array
   = inr (bit_array ++ [1]))
  /\ ((_r, _g, _b) = (255, 255, 255) ->
      sample_pixel img_name img width height row col h w bit_array
      = inr (bit_array ++ [0]))
  /\ ((_r, _g, _b) <> (0, 0, 0) -> (_r, _g, _b) <> (255, 255, 255) ->
      sample_pixel img_name img width height row col h w bit_array
      = inl (ValueError
               ("Invalid image: '" ++ img_name
                  ++ "' - image contains RGB value: " ++ Py.str _r ++ ", "
                  ++ Py.str _g ++ ", " ++ Py.str _b)%string)
      /\ (exists out e, encode_hzk_file dir input_image_dir = (out, inl e))
      /\ (well_formed_dir dir input_image_dir ->
          exists out i' width' img' row' col' h' w' r' g' b' a',
            In (i', width') (Py.enumerate PIXEL_WIDTHS)
            /\ dir (img_name_of input_image_dir i' width' (width' * 2))
               = Some img'
            /\ sampled i' width' (width' * 2) row' col' h' w'
            /\ img_load img' (col' * (width' + 1) + w')
                 (row' * (width' * 2 + 1) + h') = (r', g', b', a')
            /\ ~ is_black (r', g', b', a') /\ ~ is_white (r', g', b', a')
            /\ encode_hzk_file dir input_image_dir
               = (out, inl (invalid_image
                              (img_name_of input_image_dir i' width' (width' * 2))
                              r' g' b')))).
Proof.
  intros height img_name. subst height img_name. intros Hl D S P.
  split; [|split].
  - intros E. injection E as -> -> ->.
    now apply sample_pixel_black with (px := (0, 0, 0, _a)).
  - intros E. injection E as -> -> ->.
    now apply sample_pixel_white with (px := (255, 255, 255, _a)).
  - intros Nb Nw.
    assert (Hb : ~ is_black (_r, _g, _b, _a))
      by (intros (-> & -> & ->); now apply Nb).
    assert (Hw : ~ is_white (_r, _g, _b, _a))
      by (intros (-> & -> & ->); now apply Nw).
    split; [now apply sample_pixel_other with (_a := _a)|].
    assert (F : exists out e,
                  encode_hzk_file dir input_image_dir = (out, inl e)).
    { destruct (outcome_cases (encode_hzk_file dir input_image_dir))
        as [(out & [] & E)|F]; [exfalso|exact F].
      destruct (encode_hzk_file_completed _ _ _ E i width Hl) as (o & o' & L).
      apply encode_level_completed in L.
      destruct L as (img' & D' & W & Ht & C).
      rewrite D in D'. injection D' as <-.
      specialize (C row col h w S). cbv zeta in C.
      rewrite (sampled_access i width img row col h w W Ht S) in P.
      injection P as P. rewrite P in C. tauto. }
    split; [exact F|].
    intros WF. destruct F as (out & e & E). exists out.
    destruct (encode_hzk_file_raised _ _ _ _ E) as (i' & width' & o & Hl' & L).
    apply encode_level_raised in L; [|exact (levels_width _ _ Hl')].
    destruct (WF i' width' Hl') as (img' & D' & W' & Ht').
    destruct L as [[N _]|(img'' & D'' & [[B _]|(_ & _ & H)])].
    + congruence.
    + rewrite D' in D''. injection D'' as <-. tauto.
    + rewrite D' in D''. injection D'' as <-.
      destruct H as (row' & col' & h' & w' & r' & g' & b' & a'
                     & S' & L' & Hb' & Hw' & ->).
      exists i', width', img', row', col', h', w', r', g', b', a'. auto 10.
Qed.

Lemma colour_gate_witness :
  sample_pixel "in/0x00_6x12_0-127.png"
    (atlas 6 (fun x y => if (0 =? 0) && (x =? 1) && (y =? 1)
                         then (255, 0, 0, 255) else white))
    6 12 0 0 1 1 []
  = inl (ValueError
           "Invalid image: 'in/0x00_6x12_0-127.png' - image contains RGB value: 255, 0, 0")
  /\ exists out e, encode_hzk_file red_dot_dir "in" = (out, inl e).
Proof.
  assert (S : sampled 0 6 12 0 0 1 1) by (unfold sampled; lia).
  destruct (colour_gate red_dot_dir "in" 0 6
              (atlas 6 (fun x y => if (0 =? 0) && (x =? 1) && (y =? 1)
                                   then (255, 0, 0, 255) else white))
              0 0 1 1 255 0 0 255 []
              (or_introl eq_refl) eq_refl S eq_refl) as (_ & _ & G).
  destruct G as (G1 & G2 & _); [discriminate|discriminate|].
  split; [exact G1|exact G2].
Defined.

(** C8: the output file is determined by the contents of the ten atlases of
    the directory: two listings that hold the same images for the ten
    level files give the same bytes and the same outcome, whatever else
    they hold. *)
Theorem encode_deterministic (dir dir' : directory) (input_image_dir : string) :
  (forall i width, In (i, width) (Py.enumerate PIXEL_WIDTHS) ->
     same_file (dir (img_name_of input_image_dir i width (width * 2)))
               (dir' (img_name_of input_image_dir i width (width * 2)))) ->
  encode_hzk_file dir input_image_dir = encode_hzk_file dir' input_image_dir.
Proof.
  intros H. apply encode_hzk_file_agree. intros i width out Hl.
  apply encode_level_agree. specialize (H i width Hl).
  destruct (dir (img_name_of input_image_dir i width (width * 2))) as [img|],
           (dir' (img_name_of input_image_dir i width (width * 2))) as [img'|];
    try exact H.
  destruct H as (W & Ht & L). split; [exact W|]. split; [exact Ht|].
  intros row col h w S x y Hx Hy.
  destruct (sampled_nonneg _ _ _ _ _ _ _ S). apply L; subst x y; lia.
Qed.

Lemma encode_deterministic_witness :
  encode_hzk_file white_dir "in" = encode_hzk_file white_dir_again "in".
Proof.
  apply encode_deterministic. intros i width Hl.
  unfold white_dir.
  rewrite (atlas_dir_in (fun _ _ _ => white) i width Hl).
  replace (white_dir_again (img_name_of "in" i width (width * 2)))
    with (Some (atlas width (fun x (_ : Z) => if x <? 0 then black else white))).
  - split; [reflexivity|]. split; [reflexivity|].
    intros x y Hx _. cbn [img_load atlas].
    destruct (Z.ltb_spec x 0); [lia|reflexivity].
  - apply levels_In in Hl.
    repeat (destruct Hl as [Hl|Hl]; [injection Hl as -> ->; reflexivity|]).
    injection Hl as -> ->; reflexivity.
Defined.

(** ** The decoder *)

(** A directory of atlases that are white at every level but the first is
    encoded as its first level is. *)
Lemma encode_first_level_only (paint : Z -> Z -> Z -> rgba) (bs : list byte) :
  encode_level (atlas_dir "in" paint) "in" (0, 6) [] = (bs, inr tt) ->
  (forall i x y, i <> 0 -> is_white (paint i x y)) ->
  encode_hzk_file (atlas_dir "in" paint) "in" = (bs, inr tt).
Proof.
  intros H0 Wh. unfold encode_hzk_file, encode_levels.
  set (rest := [(1, 8); (2, 10); (3, 12); (4, 14); (5, 16); (6, 20);
                (7, 24); (8, 28); (9, 32)]).
  change (Py.enumerate PIXEL_WIDTHS) with ((0, 6) :: rest).
  rewrite for_each_cons, H0. apply for_each_unchanged. intros [i width] Hl.
  assert (Hl' : In (i, width) (Py.enumerate PIXEL_WIDTHS)) by now right.
  assert (N : i <> 0).
  { subst rest. cbn [In] in Hl. intuition congruence. }
  apply encode_level_white with (img := atlas width (paint i));
    [now apply atlas_dir_in|reflexivity|reflexivity|].
  intros x y _ _. now apply Wh.
Qed.

(** Two directories whose first glyphs differ are encoded to the same eight
    bytes: the encoded file does not determine the glyphs. *)
Lemma encoder_not_injective :
  encode_hzk_file dot_a_dir "in" = (repeat x00 8, inr tt)
  /\ encode_hzk_file dot_b_dir "in" = (repeat x00 8, inr tt)
  /\ (exists img_a img_b,
        dot_a_dir (img_name_of "in" 0 6 12) = Some img_a
        /\ dot_b_dir (img_name_of "in" 0 6 12) = Some img_b
        /\ sampled 0 6 12 0 0 1 5
        /\ img_load img_a 5 1 = black /\ img_load img_b 5 1 = white).
Proof.
  assert (Wa : forall i x y, i <> 0 ->
            is_white (if (i =? 0) && (x =? 5) && (y =? 1) then black else white)).
  { intros i x y N. destruct (Z.eqb_spec i 0); [contradiction|].
    cbn. repeat split. }
  assert (Wb : forall i x y, i <> 0 ->
            is_white (if (i =? 0) && (x =? 5) && (y =? 2) then black else white)).
  { intros i x y N. destruct (Z.eqb_spec i 0); [contradiction|].
    cbn. repeat split. }
  split; [|split].
  - apply encode_first_level_only; [vm_compute; reflexivity|exact Wa].
  - apply encode_first_level_only; [vm_compute; reflexivity|exact Wb].
  - eexists. eexists. split; [reflexivity|]. split; [reflexivity|].
    split; [unfold sampled; lia|]. split; reflexivity.
Qed.

(** C7: decoding is claimed to rebuild the atlas of every level from the
    encoded file.  Whatever the file holds, [decode_hzk_file] returns in the
    first iteration of its loop and leaves the output directory as it was;
    after decoding the encoding of the all-white atlases into an empty
    directory, the atlas of level 0 is still missing. *)
Theorem decode_hzk_file_writes_nothing
    (files : string -> option (list byte)) (input_hzk_filename : string)
    (output_dir : directory) :
  decode_hzk_file files input_hzk_filename output_dir
  = (output_dir,
     match files input_hzk_filename with
     | Some _ => inr tt
     | None => inl (FileNotFoundError input_hzk_filename)
     end)
  /\ white_dir (img_name_of "in" 0 6 12)
     = Some (atlas 6 (fun _ _ => white))
  /\ fst (decode_hzk_file
            (fun _ => Some (fst (encode_hzk_file white_dir "in")))
            "font.hzk" (fun _ => None))
       (img_name_of "in" 0 6 12)
     = None.
Proof.
  split; [|split].
  - unfold decode_hzk_file. destruct (files input_hzk_filename); reflexivity.
  - reflexivity.
  - reflexivity.
Qed.

(** * Further properties of the codec *)

(** ** The returned [bytearray] *)




(** X2: for a list of bits, the returned [bytearray] is empty exactly when
    no bit is set. *)
Theorem bits_to_byte_array_empty_iff (bit_array : list Z) :
  Forall is_bit bit_array ->
  (snd (bits_to_byte_array bit_array) = inr [] <-> Forall (eq 0) bit_array).
Proof.
  intros H.
  pose proof (be_value_nonneg bit_array H) as N.
  assert (P : 0 < 2 ^ Z.of_nat (padding (List.length bit_array)))
    by (apply Z.pow_pos_nonneg; lia).
  rewrite <- (be_value_zero_iff bit_array H). split.
  - intros E.
    destruct (Z_le_gt_dec
                (be_value (bit_array
                           ++ repeat 0 (padding (List.length bit_array))))
                Py.maxsize) as [B|B].
    + rewrite (bits_to_byte_array_returns bit_array H B) in E.
      rewrite be_value_app_zeros in E. injection E as E.
      destruct (Z.to_nat (be_value bit_array
                          * 2 ^ Z.of_nat (padding (List.length bit_array))))
        eqn:T; [|discriminate].
      nia.
    + rewrite (bits_to_byte_array_overflows bit_array H) in E by lia.
      discriminate E.
  - intros Z0. rewrite bits_to_byte_array_returns.
    + rewrite be_value_app_zeros, Z0. reflexivity.
    + exact H.
    + rewrite be_value_app_zeros, Z0. unfold Py.maxsize. lia.
Qed.

Lemma bits_to_byte_array_empty_iff_witness :
  snd (bits_to_byte_array [0; 1; 0]) <> inr [].
Proof.
  intros E.
  assert (B : Forall is_bit [0; 1; 0])
    by (repeat constructor; (now left) || (now right)).
  apply (proj1 (bits_to_byte_array_empty_iff [0; 1; 0] B)) in E.
  apply Forall_inv_tail, Forall_inv in E. discriminate E.
Defined.

(** X3: after a call the caller's list has a length that is a multiple
    of 8, and a second call on that list leaves it as it is and returns what
    the first call returned. *)
Theorem bits_to_byte_array_twice (bit_array : list Z) :
  let padded := fst (bits_to_byte_array bit_array) in
  Z.of_nat (List.length padded) mod 8 = 0
  /\ bits_to_byte_array padded = (padded, snd (bits_to_byte_array bit_array)).
Proof.
  intros padded.
  assert (L : Z.of_nat (List.length padded) mod 8 = 0).
  { subst padded. rewrite bits_to_byte_array_list, length_app, repeat_length.
    apply padded_length. }
  split; [exact L|].
  assert (F : fst (bits_to_byte_array padded) = padded).
  { rewrite bits_to_byte_array_list. unfold padding. rewrite L.
    cbn. apply app_nil_r. }
  rewrite (surjective_pairing (bits_to_byte_array padded)).
  rewrite bits_to_byte_array_bytes, F. reflexivity.
Qed.



(** ** What the encoder writes *)

Lemma for_each_writes {A : Type} (xs : list A) (body : A -> M unit)
    (f : A -> list byte) (out : outfile) :
  (forall x o, In x xs -> body x o = (o ++ f x, inr tt)) ->
  for_each xs body out = (out ++ flat_map f xs, inr tt).
Proof.
  revert out. induction xs as [|x xs IH]; intros out H.
  - cbn. now rewrite app_nil_r.
  - rewrite for_each_cons, (H x out) by now left.
    rewrite IH by (intros y o Hy; apply H; now right).
    cbn [flat_map]. now rewrite app_assoc.
Qed.

Lemma bit_of_black (px : rgba) : is_black px -> bit_of px = 1.
Proof. destruct px as [[[r g] b] a]. intros (-> & -> & ->). reflexivity. Qed.

Lemma bit_of_white (px : rgba) : is_white px -> bit_of px = 0.
Proof. destruct px as [[[r g] b] a]. intros (-> & -> & ->). reflexivity. Qed.

Lemma bit_of_is_bit (px : rgba) : is_bit (bit_of px).
Proof. unfold bit_of. destruct (is_black_b px); [now right|now left]. Qed.

Lemma sample_row_bw (img_name : string) (img : image)
    (width height row col h : Z) (ws bit_array : list Z) :
  (forall w, In w ws ->
     let x := col * (width + 1) + w in
     let y := row * (height + 1) + h in
     pixel_access img x y = inr (img_load img x y)
     /\ (is_black (img_load img x y) \/ is_white (img_load img x y))) ->
  sample_row img_name img width height row col h ws bit_array
  = inr (bit_array
         ++ map (fun w => bit_of (img_load img (col * (width + 1) + w)
                                    (row * (height + 1) + h))) ws).
Proof.
  revert bit_array. induction ws as [|w ws IH]; intros bit_array H.
  - cbn. now rewrite app_nil_r.
  - cbn [sample_row map]. destruct (H w (or_introl eq_refl)) as (P & [B|W]).
    + rewrite (sample_pixel_black _ _ _ _ _ _ _ _ _ _ P B).
      rewrite IH by (intros w' Hw'; apply H; now right).
      rewrite <- app_assoc, (bit_of_black _ B). reflexivity.
    + rewrite (sample_pixel_white _ _ _ _ _ _ _ _ _ _ P W).
      rewrite IH by (intros w' Hw'; apply H; now right).
      rewrite <- app_assoc, (bit_of_white _ W). reflexivity.
Qed.

Lemma row_bits_are_bits (img : image) (width height row col h : Z) :
  Forall is_bit (row_bits img width height row col h).
Proof.
  unfold row_bits. apply Forall_forall. intros v Hv.
  apply in_map_iff in Hv. destruct Hv as (w & <- & _). apply bit_of_is_bit.
Qed.

Section Written.

Variables (img_name : string) (img : image) (i width : Z).

Hypothesis width_small : width <= 57.
Hypothesis img_wide : img_width img = (width + 1) * 16 + 1.
Hypothesis img_high : img_height img = (width * 2 + 1) * 8 + 1.
Hypothesis img_bw :
  forall row col h w,
    sampled i width (width * 2) row col h w ->
    let px := img_load img (col * (width + 1) + w)
                (row * (width * 2 + 1) + h) in
    is_black px \/ is_white px.

Lemma encode_grid_writes (out : outfile) :
  encode_grid img_name img i width (width * 2) out
  = (out ++ level_bytes img i width (width * 2), inr tt).
Proof.
  unfold encode_grid, level_bytes.
  apply for_each_writes. intros row o1 Hrow.
  apply for_each_writes. intros col o2 Hcol.
  unfold encode_slot.
  destruct ((i =? 9) && (row =? 7) && (col =? 15)) eqn:T;
    [cbv [ret]; now rewrite app_nil_r|].
  apply for_each_writes. intros h o3 Hh.
  unfold encode_row, bind, lift.
  rewrite sample_row_bw.
  - cbn [app]. fold (row_bits img width (width * 2) row col h). cbv [ret].
    rewrite (bits_to_byte_array_returns _ (row_bits_are_bits _ _ _ _ _ _)).
    + reflexivity.
    + apply padded_value_small; [apply row_bits_are_bits|].
      unfold row_bits. rewrite length_map, range_length. lia.
  - intros w Hw x y.
    assert (S : sampled i width (width * 2) row col h w).
    { apply range_In in Hrow, Hcol, Hh, Hw. unfold sampled.
      repeat split; try lia;
        intros R; apply reserved_test in R; congruence. }
    split; [now apply sampled_access with (i := i)|exact (img_bw _ _ _ _ S)].
Qed.

End Written.

Lemma encode_valid_dir (dir : directory) (input_image_dir : string) :
  valid_dir dir input_image_dir ->
  encode_hzk_file dir input_image_dir
  = (file_bytes dir input_image_dir, inr tt).
Proof.
  intros V. unfold encode_hzk_file, encode_levels, file_bytes.
  change (flat_map ?f ?l) with ([] ++ flat_map f l).
  apply for_each_writes. intros [i width] o Hl.
  destruct (V i width Hl) as (img & D & W & Ht & BW).
  rewrite D, (encode_level_grid dir input_image_dir i width img o D W Ht).
  apply encode_grid_writes; [exact (levels_width _ _ Hl)|exact W|exact Ht|exact BW].
Qed.

Lemma encode_completed_valid (dir : directory) (input_image_dir : string)
    (out : outfile) :
  encode_hzk_file dir input_image_dir = (out, inr tt) ->
  valid_dir dir input_image_dir.
Proof.
  intros E i width Hl.
  destruct (encode_hzk_file_completed _ _ _ E i width Hl) as (o & o' & L).
  exact (encode_level_completed _ _ _ _ _ _ L).
Qed.

(** X5: a directory in which every level has its atlas, a four-band image
    of the expected dimensions with black or white sampled pixels only, is
    encoded without an exception, and the file holds, level by level, grid
    row by grid row, slot by slot and pixel row by pixel row, as many zero
    bytes as the value of the padded row of bits. *)
Theorem encode_hzk_file_writes (dir : directory) (input_image_dir : string) :
  valid_dir dir input_image_dir ->
  encode_hzk_file dir input_image_dir
  = (file_bytes dir input_image_dir, inr tt).
Proof. exact (encode_valid_dir dir input_image_dir). Qed.

Lemma white_dir_valid : valid_dir white_dir "in".
Proof.
  intros i width H. exists (atlas width (fun _ _ => white)).
  split; [now apply (atlas_dir_in (fun _ _ _ => white))|].
  split; [reflexivity|]. split; [reflexivity|].
  intros row col h w _ px. right. cbn. repeat split.
Qed.

Lemma encode_hzk_file_writes_witness :
  encode_hzk_file white_dir "in" = (file_bytes white_dir "in", inr tt).
Proof. exact (encode_hzk_file_writes white_dir "in" white_dir_valid). Defined.

(** X6: among directories whose level files, where present, open as
    four-band images, the run completes exactly when the directory is
    valid: every level file present, of the expected dimensions, and black
    or white at every sampled pixel. *)
Theorem encode_hzk_file_completes_iff (dir : directory)
    (input_image_dir : string) :
  (exists out, encode_hzk_file dir input_image_dir = (out, inr tt))
  <-> valid_dir dir input_image_dir.
Proof.
  split.
  - intros (out & E). exact (encode_completed_valid _ _ _ E).
  - intros V. exists (file_bytes dir input_image_dir).
    now apply encode_valid_dir.
Qed.

Lemma encode_hzk_file_completes_iff_witness :
  exists out, encode_hzk_file white_dir "in" = (out, inr tt).
Proof.
  exact (proj2 (encode_hzk_file_completes_iff white_dir "in") white_dir_valid).
Defined.

(** ** The output file only grows, by zero bytes *)

Lemma zero_extension_refl (out : outfile) : zero_extension out out.
Proof. exists []. split; [now rewrite app_nil_r|constructor]. Qed.

Lemma zero_extension_trans (o1 o2 o3 : outfile) :
  zero_extension o1 o2 -> zero_extension o2 o3 -> zero_extension o1 o3.
Proof.
  intros (b1 & -> & F1) (b2 & -> & F2). exists (b1 ++ b2).
  split; [now rewrite app_assoc|]. apply Forall_app. now split.
Qed.

Lemma for_each_zero_extension {A : Type} (xs : list A) (body : A -> M unit) :
  (forall x o, In x xs -> zero_extension o (fst (body x o))) ->
  forall out, zero_extension out (fst (for_each xs body out)).
Proof.
  induction xs as [|x xs IH]; intros H out.
  - apply zero_extension_refl.
  - rewrite for_each_cons. pose proof (H x out (or_introl eq_refl)) as Hx.
    destruct (body x out) as [o [e|[]]]; [exact Hx|].
    apply zero_extension_trans with (o2 := o); [exact Hx|].
    apply IH. intros y o' Hy. apply H. now right.
Qed.

Lemma encode_row_zero_extension (img_name : string) (img : image)
    (width height row col h : Z) (out : outfile) :
  zero_extension out
    (fst (encode_row img_name img width height row col h out)).
Proof.
  destruct (encode_row_cases img_name img width height row col h out)
    as [(bits & bs & S & R & E)|[(e & _ & E)|(_ & msg & E)]];
    rewrite E; cbn [fst].
  - exists bs. split; [reflexivity|].
    destruct (sample_row_completed _ _ _ _ _ _ _ _ _ _ S) as (Hb & _ & _).
    exact (bits_to_byte_array_zero_bytes bits bs (Hb (Forall_nil _)) R).
  - apply zero_extension_refl.
  - apply zero_extension_refl.
Qed.

Lemma encode_level_zero_extension (dir : directory) (input_image_dir : string)
    (level : Z * Z) (out : outfile) :
  zero_extension out (fst (encode_level dir input_image_dir level out)).
Proof.
  destruct level as [i width]. unfold encode_level.
  destruct (dir _) as [img|]; [|apply zero_extension_refl].
  unfold bind.
  destruct (check_dimensions _ img _ _) as [e|[]]; cbv [lift raise ret];
    [apply zero_extension_refl|].
  apply for_each_zero_extension. intros row o1 _.
  apply for_each_zero_extension. intros col o2 _.
  unfold encode_slot.
  destruct ((i =? 9) && (row =? 7) && (col =? 15));
    [apply zero_extension_refl|].
  apply for_each_zero_extension. intros h o3 _.
  apply encode_row_zero_extension.
Qed.

(** X7: whatever the directory holds and however the run ends, every level
    only appends to what is in the output file, every byte it appends is
    zero, and so the file left by a run holds zero bytes only. *)
Theorem encode_appends_zero_bytes (dir : directory) (input_image_dir : string)
    (levels : list (Z * Z)) (out : outfile) :
  zero_extension out (fst (encode_levels dir input_image_dir levels out))
  /\ Forall (eq x00) (fst (encode_hzk_file dir input_image_dir)).
Proof.
  assert (G : forall ls o,
            zero_extension o (fst (encode_levels dir input_image_dir ls o))).
  { intros ls o. apply for_each_zero_extension. intros lvl o' _.
    apply encode_level_zero_extension. }
  split; [apply G|].
  destruct (G (Py.enumerate PIXEL_WIDTHS) []) as (bs & E & F).
  unfold encode_hzk_file. rewrite E. exact F.
Qed.

(** ** The exceptions of a run *)

(** X8: when every level file is either missing or opens as a four-band
    image, a run that ends in an exception ends in one of three: the
    [FileNotFoundError] of a missing level file, the dimension error of a
    level file, or the colour error of a level file; in particular no
    pixel access of the sampling loops is out of range, and [bytearray] is
    never given a negative count or one above [sys.maxsize]. *)
Theorem encode_exceptions (dir : directory) (input_image_dir : string)
    (out : outfile) (e : exn) :
  encode_hzk_file dir input_image_dir = (out, inl e) ->
  level_exception dir input_image_dir e.
Proof.
  intros E.
  destruct (encode_hzk_file_raised _ _ _ _ E) as (i & width & o & Hl & L).
  exists i, width. split; [exact Hl|]. cbv zeta.
  apply encode_level_raised in L; [|exact (levels_width _ _ Hl)].
  destruct L as [[N ->]|(img & D & [[_ ->]|(_ & _ & H)])].
  - left. now split.
  - right. exists img. split; [exact D|]. now left.
  - right. exists img. split; [exact D|]. right.
    destruct H as (_ & _ & _ & _ & r & g & b & _ & _ & _ & _ & _ & ->).
    now exists r, g, b.
Qed.

Lemma encode_exceptions_witness :
  level_exception narrow_dir "in"
    (AssertionError "Bad Dimensions: in/0x01_8x16_0-127.png (144x137)").
Proof.
  apply (encode_exceptions narrow_dir "in" []). vm_compute. reflexivity.
Defined.

(** X9: when the file of a level is missing, the run ends in the
    [FileNotFoundError] of that path, with the bytes of the levels before
    it written and no later level read. *)
Theorem encode_missing_file (dir : directory) (input_image_dir : string)
    (pre post : list (Z * Z)) (i width : Z) (out : outfile) :
  Py.enumerate PIXEL_WIDTHS = pre ++ (i, width) :: post ->
  encode_levels dir input_image_dir pre [] = (out, inr tt) ->
  dir (img_name_of input_image_dir i width (width * 2)) = None ->
  encode_hzk_file dir input_image_dir
  = (out, inl (FileNotFoundError
                 (img_name_of input_image_dir i width (width * 2)))).
Proof.
  intros Hl Hpre D. unfold encode_hzk_file, encode_levels. rewrite Hl.
  apply for_each_aborts with (out1 := out); [exact Hpre|].
  now apply encode_level_missing.
Qed.

Lemma encode_missing_file_witness :
  encode_hzk_file missing_dir "in"
  = ([], inl (FileNotFoundError "in/0x02_10x20_0-127.png")).
Proof.
  refine (encode_missing_file missing_dir "in" [(0, 6); (1, 8)]
            [(3, 12); (4, 14); (5, 16); (6, 20); (7, 24); (8, 28); (9, 32)]
            2 10 [] eq_refl _ eq_refl).
  vm_compute. reflexivity.
Defined.

(** ** What the encoder reads *)

Lemma sample_pixel_rgb_agree (img_name : string) (img img' : image)
    (width height row col h w : Z) (bit_array : list Z) :
  img_width img = img_width img' -> img_height img = img_height img' ->
  0 <= col * (width + 1) + w -> 0 <= row * (height + 1) + h ->
  same_rgb (img_load img (col * (width + 1) + w) (row * (height + 1) + h))
           (img_load img' (col * (width + 1) + w) (row * (height + 1) + h)) ->
  sample_pixel img_name img width height row col h w bit_array
  = sample_pixel img_name img' width height row col h w bit_array.
Proof.
  intros W Ht Hx Hy R. unfold sample_pixel, pixel_access. cbv zeta.
  rewrite (proj2 (Z.ltb_ge _ 0) Hx), (proj2 (Z.ltb_ge _ 0) Hy). cbv iota.
  rewrite (proj2 (Z.ltb_ge _ 0) Hx), (proj2 (Z.ltb_ge _ 0) Hy).
  rewrite <- W, <- Ht.
  destruct ((false || (img_width img <=? col * (width + 1) + w) || false
             || (img_height img <=? row * (height + 1) + h))%bool);
    [reflexivity|].
  destruct (img_load img _ _) as [[[r g] b] a],
           (img_load img' _ _) as [[[r' g'] b'] a'].
  destruct R as (-> & -> & ->). reflexivity.
Qed.

Lemma sample_row_rgb_agree (img_name : string) (img img' : image)
    (width height row col h : Z) (ws bit_array : list Z) :
  img_width img = img_width img' -> img_height img = img_height img' ->
  (forall w, In w ws ->
     0 <= col * (width + 1) + w /\ 0 <= row * (height + 1) + h
     /\ same_rgb (img_load img (col * (width + 1) + w) (row * (height + 1) + h))
          (img_load img' (col * (width + 1) + w) (row * (height + 1) + h))) ->
  sample_row img_name img width height row col h ws bit_array
  = sample_row img_name img' width height row col h ws bit_array.
Proof.
  intros W Ht. revert bit_array.
  induction ws as [|w ws IH]; intros bit_array H; [reflexivity|].
  cbn [sample_row]. destruct (H w (or_introl eq_refl)) as (Hx & Hy & R).
  rewrite (sample_pixel_rgb_agree img_name img img' _ _ _ _ _ _ _ W Ht Hx Hy R).
  destruct (sample_pixel img_name img' width height row col h w bit_array);
    [reflexivity|].
  apply IH. intros w' Hw'. apply H. now right.
Qed.

(** X10: the run reads the atlases through their dimensions and through the
    red, green and blue bands of the sampled pixels only: two directories
    that agree on those are encoded alike, whatever their alpha bands, their
    separator lines and the block of the reserved slot hold. *)
Theorem encode_reads_rgb_of_glyph_blocks (dir dir' : directory)
    (input_image_dir : string) :
  (forall i width, In (i, width) (Py.enumerate PIXEL_WIDTHS) ->
     match dir (img_name_of input_image_dir i width (width * 2)),
           dir' (img_name_of input_image_dir i width (width * 2)) with
     | None, None => True
     | Some img, Some img' =>
         img_width img = img_width img' /\ img_height img = img_height img'
         /\ forall row col h w,
              sampled i width (width * 2) row col h w ->
              same_rgb (img_load img (col * (width + 1) + w)
                          (row * (width * 2 + 1) + h))
                       (img_load img' (col * (width + 1) + w)
                          (row * (width * 2 + 1) + h))
     | _, _ => False
     end) ->
  encode_hzk_file dir input_image_dir = encode_hzk_file dir' input_image_dir.
Proof.
  intros H. apply encode_hzk_file_agree. intros i width out Hl.
  specialize (H i width Hl). unfold encode_level.
  destruct (dir (img_name_of input_image_dir i width (width * 2))) as [img|],
           (dir' (img_name_of input_image_dir i width (width * 2))) as [img'|];
    try contradiction; [|reflexivity].
  destruct H as (W & Ht & L).
  set (name := img_name_of input_image_dir i width (width * 2)).
  assert (C : check_dimensions name img ((width + 1) * 16 + 1)
                ((width * 2 + 1) * 8 + 1)
              = check_dimensions name img' ((width + 1) * 16 + 1)
                  ((width * 2 + 1) * 8 + 1)).
  { unfold check_dimensions, bad_dimensions. now rewrite W, Ht. }
  unfold bind. rewrite C.
  destruct (check_dimensions name img' ((width + 1) * 16 + 1)
              ((width * 2 + 1) * 8 + 1)) as [e|[]]; cbv [lift raise ret];
    [reflexivity|].
  apply for_each_ext. intros row o1 Hrow.
  apply for_each_ext. intros col o2 Hcol.
  unfold encode_slot.
  destruct ((i =? 9) && (row =? 7) && (col =? 15)) eqn:T; [reflexivity|].
  apply for_each_ext. intros h o3 Hh.
  unfold encode_row.
  rewrite (sample_row_rgb_agree name img img'); [reflexivity|exact W|exact Ht|].
  intros w Hw.
  assert (S : sampled i width (width * 2) row col h w).
  { apply range_In in Hrow, Hcol, Hh, Hw. unfold sampled.
    repeat split; try lia;
      intros R; apply reserved_test in R; congruence. }
  destruct (sampled_nonneg _ _ _ _ _ _ _ S). auto.
Qed.

Lemma encode_reads_rgb_of_glyph_blocks_witness :
  encode_hzk_file transparent_dir "in" = encode_hzk_file white_dir "in".
Proof.
  apply encode_reads_rgb_of_glyph_blocks. intros i width Hl.
  unfold transparent_dir, white_dir.
  rewrite !atlas_dir_in by exact Hl.
  split; [reflexivity|]. split; [reflexivity|].
  intros row col h w S. cbn [img_load atlas].
  destruct (sampled_nonneg _ _ _ _ _ _ _ S) as [Hx Hy].
  destruct S as (Hr & Hc & _ & Hh & Hw).
  destruct (Z.eqb_spec (col * (width + 1) + w) 0) as [E|E]; [nia|].
  cbn. repeat split.
Defined.

(** ** The paths of the level files *)

Lemma append_inj_l (s a b : string) :
  (s ++ a)%string = (s ++ b)%string -> a = b.
Proof.
  induction s as [|c s IH]; cbn; intros H; [exact H|].
  injection H as H. now apply IH.
Qed.

(** X11: whatever the input directory is called, the ten levels are read
    from ten different paths. *)
Theorem level_files_distinct (input_image_dir : string) :
  NoDup (map (fun '(i, width) =>
                img_name_of input_image_dir i width (width * 2))
             (Py.enumerate PIXEL_WIDTHS)).
Proof.
  replace (map (fun '(i, width) =>
                  img_name_of input_image_dir i width (width * 2))
             (Py.enumerate PIXEL_WIDTHS))
    with (map (String.append input_image_dir)
            (map (fun '(i, width) => img_name_of "" i width (width * 2))
               (Py.enumerate PIXEL_WIDTHS)))
    by (rewrite map_map; apply map_ext; now intros [i width]).
  apply Finite.Injective_map_NoDup.
  - intros a b. apply append_inj_l.
  - vm_compute.
    repeat (constructor;
            [cbn; intros H; repeat (destruct H as [H|H]; [discriminate H|]);
             exact H|]).
    constructor.
Qed.

(** ** The encoding is not injective *)

Lemma atlas_dir_valid (paint : Z -> Z -> Z -> rgba) :
  (forall i x y, is_black (paint i x y) \/ is_white (paint i x y)) ->
  valid_dir (atlas_dir "in" paint) "in".
Proof.
  intros BW i width Hl. exists (atlas width (paint i)).
  split; [now apply atlas_dir_in|]. split; [reflexivity|].
  split; [reflexivity|]. intros row col h w _ px. apply BW.
Qed.

(** X15: the encoded file does not determine the glyphs: there are two
    valid directories, black at a sampled pixel in one and white there in
    the other, that are encoded to the same file. *)
Theorem encoding_not_injective :
  exists dir dir' i width img img' row col h w,
    valid_dir dir "in" /\ valid_dir dir' "in"
    /\ In (i, width) (Py.enumerate PIXEL_WIDTHS)
    /\ dir (img_name_of "in" i width (width * 2)) = Some img
    /\ dir' (img_name_of "in" i width (width * 2)) = Some img'
    /\ sampled i width (width * 2) row col h w
    /\ is_black (img_load img (col * (width + 1) + w)
                   (row * (width * 2 + 1) + h))
    /\ is_white (img_load img' (col * (width + 1) + w)
                   (row * (width * 2 + 1) + h))
    /\ encode_hzk_file dir "in" = encode_hzk_file dir' "in".
Proof.
  destruct encoder_not_injective as (Ea & Eb & _).
  exists dot_a_dir, dot_b_dir, 0, 6.
  exists (atlas 6 (fun x y => if (0 =? 0) && (x =? 5) && (y =? 1)
                              then black else white)).
  exists (atlas 6 (fun x y => if (0 =? 0) && (x =? 5) && (y =? 2)
                              then black else white)).
  exists 0, 0, 1, 5.
  split; [|split].
  - apply atlas_dir_valid. intros i x y.
    destruct ((i =? 0) && (x =? 5) && (y =? 1)); [left|right]; cbn; auto.
  - apply atlas_dir_valid. intros i x y.
    destruct ((i =? 0) && (x =? 5) && (y =? 2)); [left|right]; cbn; auto.
  - split; [now left|]. split; [reflexivity|]. split; [reflexivity|].
    split; [unfold sampled; lia|].
    split; [cbn; auto|]. split; [cbn; auto|].
    exact (eq_trans Ea (eq_sym Eb)).
Qed.

(** ** The command-line entry point *)

Lemma endswith_spec (s suffix : string) :
  PyStr.endswith s suffix = true <-> exists p, s = (p ++ suffix)%string.
Proof.
  induction s as [|c s IH]; cbn [PyStr.endswith].
  - rewrite orb_false_r, String.eqb_eq. split.
    + intros <-. now exists ""%string.
    + intros ([|c p] & H); [exact H|discriminate H].
  - rewrite orb_true_iff, String.eqb_eq, IH. split.
    + intros [<-|(p & ->)]; [now exists ""%string|now exists (String c p)].
    + intros ([|c' p] & H); [now left|].
      right. injection H as _ ->. now exists p.
Qed.




(** X14: in decode mode [main] ends normally exactly when the lower-cased
    input path ends in [.hzk] and the path exists, the output path is a
    directory or has a writable parent, and the input file can be opened;
    even then it has written nothing. *)
Theorem main_decode_completes_iff (lower : string -> string) (w : os)
    (a : args) :
  encode a = false ->
  (snd (main lower w a) = inr tt
   <-> (exists p, lower (input_path a) = (p ++ ".hzk")%string)
       /\ path_exists w (input_path a) = true
       /\ (isdir w (output_path a) = true
           \/ access_w w (dirname w (output_path a)) = true)
       /\ files w (input_path a) <> None)
  /\ (snd (main lower w a) = inr tt -> fst (main lower w a) = (None, images w)).
Proof.
  intros Ha. unfold main. rewrite Ha.
  unfold input_file_ok, output_dir_ok, decode_hzk_file.
  rewrite <- endswith_spec.
  destruct (PyStr.endswith (lower (input_path a)) ".hzk");
    [|cbn; split; [split; [discriminate|intros (? & _); discriminate]
                  |discriminate]].
  destruct (path_exists w (input_path a));
    [|cbn; split; [split; [discriminate|intros (_ & ? & _); discriminate]
                  |discriminate]].
  cbn [andb negb].
  destruct (isdir w (output_path a)) eqn:D; cbn [orb negb].
  - destruct (files w (input_path a)); cbn.
    + split; [split; [intros _; repeat split; auto; discriminate|reflexivity]
             |reflexivity].
    + split; [split; [discriminate|intros (_ & _ & _ & N); now contradiction N]
             |discriminate].
  - destruct (access_w w (dirname w (output_path a))) eqn:A; cbn [negb].
    + destruct (files w (input_path a)); cbn.
      * split; [split; [intros _; repeat split; auto; discriminate|reflexivity]
               |reflexivity].
      * split; [split; [discriminate
                       |intros (_ & _ & _ & N); now contradiction N]
               |discriminate].
    + cbn. split; [split; [discriminate
                          |intros (_ & _ & [?|?] & _); discriminate]
                  |discriminate].
Qed.

Lemma main_decode_completes_iff_witness :
  snd (main PyStr.ascii_lower white_os (mk_args false "old.hzk" "out")) = inr tt
  /\ fst (main PyStr.ascii_lower white_os (mk_args false "old.hzk" "out"))
     = (None, white_dir).
Proof.
  destruct (main_decode_completes_iff PyStr.ascii_lower white_os
              (mk_args false "old.hzk" "out") eq_refl) as (I & N).
  assert (R : snd (main PyStr.ascii_lower white_os
                     (mk_args false "old.hzk" "out")) = inr tt).
  { apply I. split; [now exists "old"%string|]. split; [reflexivity|].
    split; [left; reflexivity|discriminate]. }
  split; [exact R|exact (N R)].
Defined.

(** ** The reserved slot *)

Lemma flat_map_ext_In {A B : Type} (f g : A -> list B) (l : list A) :
  (forall a, In a l -> f a = g a) -> flat_map f l = flat_map g l.
Proof.
  induction l as [|a l IH]; intros H; [reflexivity|].
  cbn [flat_map]. rewrite (H a (or_introl eq_refl)).
  rewrite IH by (intros b Hb; apply H; now right). reflexivity.
Qed.

(** The slot at row 7, column 15 is the last of a level, and only level 9
    leaves it out. *)
Lemma level_bytes_split (img : image) (i width height : Z) :
  level_bytes img i width height
  = other_slots_bytes img width height
    ++ (if i =? 9 then [] else glyph_bytes img width height 7 15).
Proof.
  unfold level_bytes, other_slots_bytes.
  change (Py.range 0 8) with (Py.range 0 7 ++ [7]).
  rewrite flat_map_app. cbn [flat_map]. rewrite app_nil_r.
  change (Py.range 0 16) with (Py.range 0 15 ++ [15]).
  rewrite flat_map_app with (l1 := Py.range 0 15) (l2 := [15]).
  cbn [flat_map]. rewrite app_nil_r, Z.eqb_refl, Z.eqb_refl, andb_true_r,
    andb_true_r, <- app_assoc.
  f_equal; [|f_equal].
  - apply flat_map_ext_In. intros row Hrow. apply flat_map_ext_In.
    intros col _. apply range_In in Hrow.
    destruct (Z.eqb_spec row 7); [lia|]. now rewrite andb_false_r.
  - apply flat_map_ext_In. intros col Hcol. apply range_In in Hcol.
    destruct (Z.eqb_spec col 15); [lia|]. now rewrite andb_false_r.
Qed.

(** A sampled pixel that is neither black nor white ends the run in an
    exception. *)
Lemma encode_fails_on_colour (dir : directory) (input_image_dir : string)
    (i width : Z) (img : image) (row col h w _r _g _b _a : Z) :
  In (i, width) (Py.enumerate PIXEL_WIDTHS) ->
  dir (img_name_of input_image_dir i width (width * 2)) = Some img ->
  sampled i width (width * 2) row col h w ->
  pixel_access img (col * (width + 1) + w) (row * (width * 2 + 1) + h)
  = inr (_r, _g, _b, _a) ->
  (_r, _g, _b) <> (0, 0, 0) -> (_r, _g, _b) <> (255, 255, 255) ->
  exists out e, encode_hzk_file dir input_image_dir = (out, inl e).
Proof.
  intros Hl D S P Nb Nw.
  destruct (outcome_cases (encode_hzk_file dir input_image_dir))
    as [(out & [] & E)|F]; [exfalso|exact F].
  destruct (encode_completed_valid _ _ _ E i width Hl)
    as (img' & D' & W & Ht & C).
  rewrite D in D'. injection D' as <-.
  specialize (C row col h w S). cbv zeta in C.
  rewrite (sampled_access i width img row col h w W Ht S) in P.
  injection P as P. rewrite P in C.
  destruct C as [(-> & -> & ->)|(-> & -> & ->)]; [now apply Nb|now apply Nw].
Qed.

(** C6: at level 9 the slot at row 7, column 15 writes nothing and reads
    nothing, whatever the image holds, and the result of the whole run does
    not depend on the pixels of its block.  Every other slot is encoded as
    a glyph.  At every other level the slot at row 7, column 15 is part of
    the run like any slot: the file of a valid directory holds, for each
    level, the bytes of the other slots followed, except at level 9, by the
    bytes of the glyph at row 7, column 15; and a pixel of that glyph that
    is neither black nor white ends the run in an exception. *)
Theorem reserved_hole_skipped (dir dir' : directory) (input_image_dir : string)
    (img_name : string) (img img9 img9' : image) (i width height row col : Z)
    (out : outfile) :
  encode_slot img_name img 9 width height 7 15 out = (out, inr tt)
  /\ (~ (i = 9 /\ row = 7 /\ col = 15) ->
      encode_slot img_name img i width height row col out
      = encode_glyph img_name img width height row col out)
  /\ (dir (img_name_of input_image_dir 9 32 64) = Some img9 ->
      dir' (img_name_of input_image_dir 9 32 64) = Some img9' ->
      img_width img9 = img_width img9' ->
      img_height img9 = img_height img9' ->
      (forall x y, ~ in_block 32 64 7 15 x y ->
         img_load img9 x y = img_load img9' x y) ->
      (forall i' width', In (i', width') (Py.enumerate PIXEL_WIDTHS) ->
         i' <> 9 ->
         dir (img_name_of input_image_dir i' width' (width' * 2))
         = dir' (img_name_of input_image_dir i' width' (width' * 2))) ->
      encode_hzk_file dir input_image_dir
      = encode_hzk_file dir' input_image_dir)
  /\ (valid_dir dir input_image_dir ->
      encode_hzk_file dir input_image_dir
      = (flat_map
           (fun '(i', width') =>
              match dir (img_name_of input_image_dir i' width' (width' * 2))
              with
              | Some im =>
                  other_slots_bytes im width' (width' * 2)
                  ++ (if i' =? 9 then []
                      else glyph_bytes im width' (width' * 2) 7 15)
              | None => []
              end)
           (Py.enumerate PIXEL_WIDTHS),
         inr tt))
  /\ (forall i' width' im h w _r _g _b _a,
        In (i', width') (Py.enumerate PIXEL_WIDTHS) -> i' <> 9 ->
        dir (img_name_of input_image_dir i' width' (width' * 2)) = Some im ->
        1 <= h < width' * 2 -> 1 <= w < width' ->
        pixel_access im (15 * (width' + 1) + w) (7 * (width' * 2 + 1) + h)
        = inr (_r, _g, _b, _a) ->
        (_r, _g, _b) <> (0, 0, 0) -> (_r, _g, _b) <> (255, 255, 255) ->
        exists out' e, encode_hzk_file dir input_image_dir = (out', inl e)).
Proof.
  split; [reflexivity|]. split; [|split; [|split]].
  - intros N. unfold encode_slot.
    destruct ((i =? 9) && (row =? 7) && (col =? 15)) eqn:T; [|reflexivity].
    apply reserved_test in T. contradiction.
  - intros D D' W Ht L Others.
    apply encode_hzk_file_agree. intros i' width' o Hl.
    apply encode_level_agree.
    destruct (Z.eq_dec i' 9) as [->|N].
    + assert (width' = 32) as ->.
      { apply levels_In in Hl. intuition congruence. }
      change (32 * 2) with 64. rewrite D, D'.
      split; [exact W|]. split; [exact Ht|].
      intros row' col' h' w' S x y _ _. apply L.
      unfold sampled in S. unfold in_block. subst x y. lia.
    + rewrite <- (Others i' width' Hl N).
      destruct (dir (img_name_of input_image_dir i' width' (width' * 2)))
        as [im|]; [|exact I].
      split; [reflexivity|]. split; reflexivity.
  - intros V. rewrite (encode_valid_dir dir input_image_dir V).
    f_equal. unfold file_bytes. apply flat_map_ext. intros [i' width'].
    destruct (dir (img_name_of input_image_dir i' width' (width' * 2)));
      [apply level_bytes_split|reflexivity].
  - intros i' width' im h w r g b a Hl N D Hh Hw P Nb Nw.
    apply (encode_fails_on_colour dir input_image_dir i' width' im 7 15 h w
             r g b a Hl D); [|exact P|exact Nb|exact Nw].
    unfold sampled. repeat split; try lia; intros (E & _); contradiction.
Qed.

Lemma reserved_hole_skipped_witness :
  encode_slot "in/0x09_32x64_0-127.png"
    (atlas 32 (fun _ _ => (128, 128, 128, 255))) 9 32 64 7 15 []
  = ([], inr tt)
  /\ encode_hzk_file grey_hole_dir "in" = encode_hzk_file white_dir "in"
  /\ encode_hzk_file black_corner_dir "in" = (repeat x00 8, inr tt)
  /\ glyph_bytes
       (atlas 6 (fun x y => if (0 =? 0) && (x =? 110) && (y =? 92)
                            then black else white)) 6 12 7 15
     = repeat x00 8
  /\ exists out e, encode_hzk_file grey_corner_dir "in" = (out, inl e).
Proof.
  split; [|split; [|split; [|split]]].
  - exact (proj1 (reserved_hole_skipped white_dir white_dir "in"
                    "in/0x09_32x64_0-127.png"
                    (atlas 32 (fun _ _ => (128, 128, 128, 255)))
                    (atlas 32 (fun _ _ => white)) (atlas 32 (fun _ _ => white))
                    9 32 64 7 15 [])).
  - refine (proj1 (proj2 (proj2 (reserved_hole_skipped grey_hole_dir white_dir
                    "in" "in/0x09_32x64_0-127.png" (atlas 32 (fun _ _ => white))
                    (atlas 32 (fun x y =>
                       if (9 =? 9) && (496 <=? x) && (x <? 527) && (456 <=? y)
                          && (y <? 519)
                       then (128, 128, 128, 255) else white))
                    (atlas 32 (fun _ _ => white))
                    9 32 64 7 15 []))) eq_refl eq_refl eq_refl eq_refl _ _).
    + intros x y N. unfold in_block in N. cbn [img_load atlas].
      destruct (Z.leb_spec 496 x), (Z.ltb_spec x 527), (Z.leb_spec 456 y),
               (Z.ltb_spec y 519); try reflexivity.
      exfalso. apply N. lia.
    + intros i' width' Hl N. apply levels_In in Hl.
      repeat (destruct Hl as [Hl|Hl];
              [injection Hl as -> ->; reflexivity|]).
      injection Hl as -> ->. contradiction.
  - rewrite (proj1 (proj2 (proj2 (proj2
               (reserved_hole_skipped black_corner_dir black_corner_dir "in"
                  "in/0x00_6x12_0-127.png" (atlas 6 (fun _ _ => white))
                  (atlas 32 (fun _ _ => white)) (atlas 32 (fun _ _ => white))
                  0 6 12 7 15 []))))).
    + vm_compute. reflexivity.
    + apply atlas_dir_valid. intros i x y.
      destruct ((i =? 0) && (x =? 110) && (y =? 92)); [left|right]; cbn; auto.
  - vm_compute. reflexivity.
  - refine (proj2 (proj2 (proj2 (proj2
              (reserved_hole_skipped grey_corner_dir grey_corner_dir "in"
                 "in/0x00_6x12_0-127.png" (atlas 6 (fun _ _ => white))
                 (atlas 32 (fun _ _ => white)) (atlas 32 (fun _ _ => white))
                 0 6 12 7 15 []))))
              0 6
              (atlas 6 (fun x y => if (0 =? 0) && (x =? 110) && (y =? 92)
                                   then (128, 128, 128, 255) else white))
              1 5 128 128 128 255 (or_introl eq_refl) _ eq_refl _ _ eq_refl _ _);
      [lia|lia|lia|discriminate|discriminate].
Defined.
